(** * faces/align.py: alignment of face photographs on pupils and mouth

    A shallow embedding of [faces/align.py] and the properties of its
    three-pass alignment pipeline.

    Numbers.  Python floats and the numpy [float32] arrays are modelled by
    the real numbers [R]: in the pipeline every arithmetic operation is
    the exact one.  The two places where the code rounds to float32 what a
    property speaks of, the conversion of line 170 and the accumulation of
    line 200, have a second model with the rounding written out
    ([float32], [np_array_float32], [composite_float32]).
    Python [int]s are [Z], list lengths and indexes are [nat].

    Exceptions.  A Python computation either returns a value or raises; an
    exception is identified by the name of its class.

    OpenCV.  [cv2.estimateRigidTransform], [cv2.getAffineTransform] and
    [cv2.warpAffine] are not part of the repository: they are the three
    fields of a record [CV2], and the pipeline is a section over it.

    Input and output.  [load_data] is given the images and coordinates
    already read from the directory; what [main] shows and writes is the
    value it returns here. *)

From Stdlib Require Import Ascii String Reals Lra Lia ZArith Bool Arith List.
From Stdlib Require Import Permutation.
Import ListNotations.

Open Scope R_scope.

(* ================================================================== *)
(** * Python values and control *)
(* ================================================================== *)

Module Py.

(** The class name of a raised exception. *)
Definition exn := string.

Inductive outcome (A : Type) : Type :=
| Returned (a : A)
| Raised (e : exn).
Arguments Returned {A} a.
Arguments Raised {A} e.

Definition bind {A B} (m : outcome A) (k : A -> outcome B) : outcome B :=
  match m with
  | Returned a => k a
  | Raised e => Raised e
  end.

(** [for x in xs: ys.append(f(x))], stopping at the first exception. *)
Fixpoint for_each {A B} (f : A -> outcome B) (xs : list A)
  : outcome (list B) :=
  match xs with
  | [] => Returned []
  | x :: xs' =>
      bind (f x) (fun y =>
      bind (for_each f xs') (fun ys => Returned (y :: ys)))
  end.

(** [xs[i]] for a non-negative literal index. *)
Definition getitem {A} (xs : list A) (i : nat) : outcome A :=
  match nth_error xs i with
  | Some a => Returned a
  | None => Raised "IndexError"%string
  end.

(** [int(x)] on a float: truncation toward zero. *)
Definition int (x : R) : Z :=
  if Rle_dec 0 x then Int_part x else (- Int_part (- x))%Z.

(** Nearest integer, ties to the even one. *)
Definition round_half_even (y : R) : Z :=
  let f := Int_part y in
  let d := y - IZR f in
  if Rlt_dec d (1 / 2) then f
  else if Rlt_dec (1 / 2) d then (f + 1)%Z
  else if Z.even f then f else (f + 1)%Z.

(** [round(x, ndigits)]. *)
Definition round (x : R) (ndigits : nat) : R :=
  IZR (round_half_even (x * 10 ^ ndigits)) / 10 ^ ndigits.

End Py.

Import Py.

Declare Scope py_scope.
Delimit Scope py_scope with py.
Notation "x <- m ;; k" := (Py.bind m (fun x => k))
  (at level 61, m at next level, right associativity) : py_scope.
Notation "' pat <- m ;; k" := (Py.bind m (fun x => match x with pat => k end))
  (at level 61, pat pattern, m at next level, right associativity) : py_scope.
Open Scope py_scope.

(* ================================================================== *)
(** * The data of align.py *)
(* ================================================================== *)

(** A coordinate pair [(x, y)]. *)
Definition point : Type := R * R.

(** A 2x3 matrix, as [cv2] returns it. *)
Record mat23 : Type := Mat23 {
  m00 : R; m01 : R; m02 : R;
  m10 : R; m11 : R; m12 : R
}.

(** An image array, read at [row], [column], [channel]. *)
Definition image : Type := nat -> nat -> nat -> R.

(** [transform.dot(np.array([x, y, 1]))] *)
Definition dot (T : mat23) (v : R * R * R) : point :=
  let '(x, y, w) := v in
  (m00 T * x + m01 T * y + m02 T * w,
   m10 T * x + m11 T * y + m12 T * w).

(** Lines 27-30. *)
Definition PI3 : R := PI / 3.
Definition SIN_PI3 : R := sin PI3.
Definition COS_PI3 : R := cos PI3.

(** Lines 73-103.  [lru_cache] memoises a pure function and is not
    modelled. *)
Definition calculate_third_equilateral_point (a b : point) : point :=
  let '(a_x, a_y) := a in
  let '(b_x, b_y) := b in
  let new_x := (COS_PI3 * (a_x - b_x)) - (SIN_PI3 * (a_y - b_y)) + b_x in
  let new_y := (SIN_PI3 * (a_x - b_x)) + (COS_PI3 * (a_y - b_y)) + b_y in
  (new_x, new_y).

(** Lines 134-148. *)
Definition calculate_pupil_points (output_width output_height : Z)
  : (Z * Z) * (Z * Z) :=
  let pupil_ratio_from_top := 0.4 in
  let pupil_ratio_from_left := 0.35 in
  let left_pupil_coords :=
    (Py.int (IZR output_width * pupil_ratio_from_left),
     Py.int (IZR output_height * 0.4)) in
  let right_pupil_coords :=
    (Py.int (IZR output_width * (1.0 - pupil_ratio_from_left)),
     Py.int (IZR output_height * 0.4)) in
  (left_pupil_coords, right_pupil_coords).

(** Squared Euclidean distance, and the area test on three points. *)
Definition dist2 (p q : point) : R :=
  (fst p - fst q) * (fst p - fst q) + (snd p - snd q) * (snd p - snd q).

(** Twice the signed area of the triangle [p q r]. *)
Definition area2 (p q r : point) : R :=
  (fst q - fst p) * (snd r - snd p) - (fst r - fst p) * (snd q - snd p).

Definition collinear (p q r : point) : Prop := area2 p q r = 0.

(* ================================================================== *)
(** * numpy on the arrays of align.py *)
(* ================================================================== *)

(** [np.array(rows, np.float32())] on a list of lists of coordinate pairs:
    an array of shape [(n, L, 2)] when all rows have one length, a
    [ValueError] on ragged rows, and the empty array of shape [(0,)] on
    the empty list. *)
Definition np_array (rows : list (list point)) : outcome (list (list point)) :=
  match rows with
  | [] => Returned []
  | r :: rs =>
      if forallb (fun r' => Nat.eqb (length r') (length r)) rs
      then Returned rows
      else Raised "ValueError"%string
  end.

Definition padd (p q : point) : point := (fst p + fst q, snd p + snd q).
Definition pdiv (p : point) (n : nat) : point := (fst p / INR n, snd p / INR n).

(** Elementwise sum of two rows. *)
Definition row_add (r1 r2 : list point) : list point :=
  map (fun pq => padd (fst pq) (snd pq)) (combine r1 r2).

(** [np.average(arr, axis=0)]: the rows are added up along the first axis
    and the sum is divided by their number.  On the empty array the result
    is a NaN scalar, which has no slot to index: the empty list. *)
Definition np_average (arr : list (list point)) : list point :=
  match arr with
  | [] => []
  | r :: rs => map (fun p => pdiv p (length arr)) (fold_left row_add rs r)
  end.

(** [np.zeros((output_height, output_width, 3), np.float32)] *)
Definition np_zeros : image := fun _ _ _ => 0.

(** [image / n] and [image1 + image2], elementwise. *)
Definition img_div (im : image) (n : nat) : image :=
  fun r c k => im r c k / INR n.
Definition img_add (im1 im2 : image) : image :=
  fun r c k => im1 r c k + im2 r c k.

(* ================================================================== *)
(** * The OpenCV functions align.py calls *)
(* ================================================================== *)

(** [estimateRigidTransform src dst fullAffine] returns a matrix or [None]
    (OpenCV's empty result); [getAffineTransform src dst] and
    [warpAffine image M dsize] return an array. *)
Record CV2 : Type := {
  estimateRigidTransform : list point -> list point -> bool -> option mat23;
  getAffineTransform : list point -> list point -> mat23;
  warpAffine : image -> mat23 -> Z * Z -> image
}.

(** Modelled from the spec: [cv2.getAffineTransform], an OpenCV function
    that is not under src/.  The spec (4.2): given exactly 3 non-collinear
    correspondences, it solves the unique affine map satisfying all three
    pairs exactly.  The solution is written with Cramer's rule; on other
    numbers of points it is the zero matrix. *)
Definition affine_solve (src dst : list point) : mat23 :=
  match src, dst with
  | [(x0, y0); (x1, y1); (x2, y2)], [(u0, v0); (u1, v1); (u2, v2)] =>
      let D := (x1 - x0) * (y2 - y0) - (x2 - x0) * (y1 - y0) in
      let a := ((u1 - u0) * (y2 - y0) - (u2 - u0) * (y1 - y0)) / D in
      let b := ((x1 - x0) * (u2 - u0) - (x2 - x0) * (u1 - u0)) / D in
      let d := ((v1 - v0) * (y2 - y0) - (v2 - v0) * (y1 - y0)) / D in
      let e := ((x1 - x0) * (v2 - v0) - (x2 - x0) * (v1 - v0)) / D in
      Mat23 a b (u0 - a * x0 - b * y0) d e (v0 - d * x0 - e * y0)
  | _, _ => Mat23 0 0 0 0 0 0
  end.

(** The larger of the two coordinate errors between two points. *)
Definition point_error (p q : point) : R :=
  Rmax (Rabs (fst p - fst q)) (Rabs (snd p - snd q)).

(* ================================================================== *)
(** * The functions of align.py *)
(* ================================================================== *)

(** Lines 49-70, on the files already read: an entry is the image as
    [cv2.imread] gives it and the coordinates of its txt file.  Entries with
    fewer than 5 coordinates are skipped; pixel values are scaled by 1/255. *)
Definition load_data (entries : list (image * list point))
  : list image * list (list point) :=
  let kept := filter (fun e => negb (length (snd e) <? 5)%nat) entries in
  (map (fun e => (fun r c k => fst e r c k / 255) : image) kept,
   map snd kept).

Definition output_width : Z := 600.
Definition output_height : Z := 800.

(** A tuple of Python ints read as coordinates. *)
Definition as_point (c : Z * Z) : point := (IZR (fst c), IZR (snd c)).

(** What [main] computes, shows and writes: the final transforms; for each
    photo its number [n] and the warped image, shown by [imshow] and
    written, scaled by 255, to the file [n:03.jpg]; and the average image,
    shown and written to [average.jpg] the same way. *)
Record output : Type := {
  all_transforms3 : list mat23;
  new_images : list (nat * image);
  average_image : image
}.

Section Pipeline.

Context (cv : CV2).

(** Lines 106-131.  [len(p) == 2] and the unpacking [*p] are the match on
    a list of two points. *)
Definition calculate_transform (starting_point target_point : list point)
  : outcome (option mat23) :=
  let starting_point :=
    match starting_point with
    | [a; b] =>
        let starting_third := calculate_third_equilateral_point a b in
        starting_point ++ [starting_third]
    | _ => starting_point
    end in
  let target_point :=
    match target_point with
    | [a; b] =>
        let target_third := calculate_third_equilateral_point a b in
        target_point ++ [target_third]
    | _ => target_point
    end in
  let transform :=
    estimateRigidTransform cv starting_point target_point false in
  Returned transform.

(** Line 165: [transform.dot(...)], an [AttributeError] on [None]. *)
Definition transform_dot (transform : option mat23) (v : R * R * R)
  : outcome point :=
  match transform with
  | Some T => Returned (dot T v)
  | None => Raised "AttributeError"%string
  end.

(** Lines 162-167: the body of the first loop of [main]. *)
Definition pass1_photo (pupil_points : list point)
  (image_points : list point) : outcome (option mat23 * list point) :=
  p0 <- getitem image_points 0 ;;
  p3 <- getitem image_points 3 ;;
  transform <- calculate_transform [p0; p3] pupil_points ;;
  new_image_points <-
    for_each (fun point =>
      transform_dot transform (fst point, snd point, 1)) image_points ;;
  Returned (transform, new_image_points).

(** Lines 175-179: the body of the second loop of [main]. *)
Definition pass2_photo (averaged_points : list point)
  (it : list point * option mat23) : outcome (option mat23) :=
  let '(image_points, _) := it in
  s0 <- getitem image_points 0 ;;
  s3 <- getitem image_points 3 ;;
  s4 <- getitem image_points 4 ;;
  d0 <- getitem averaged_points 0 ;;
  d3 <- getitem averaged_points 3 ;;
  d4 <- getitem averaged_points 4 ;;
  calculate_transform [s0; s3; s4] [d0; d3; d4].

(** Lines 187-189: the body of the third loop of [main]. *)
Definition pass3_photo (destination_triangle : list point)
  (image_points : list point) : outcome mat23 :=
  s0 <- getitem image_points 0 ;;
  s3 <- getitem image_points 3 ;;
  s4 <- getitem image_points 4 ;;
  let source_triangle := [s0; s3; s4] in
  Returned (getAffineTransform cv source_triangle destination_triangle).

(** Lines 191-200: the last loop of [main], from the zero image of
    line 181. *)
Definition composite (all_images : list image)
  (all_transforms3 : list mat23) : list (nat * image) * image :=
  let image_count := length all_images in
  fold_left
    (fun (st : list (nat * image) * image) it =>
       let '(written, average_image) := st in
       let '(image, transform3, n) := it in
       let new_image :=
         warpAffine cv image transform3 (output_width, output_height) in
       (written ++ [(n, new_image)],
        img_add average_image (img_div new_image image_count)))
    (combine (combine all_images all_transforms3) (seq 0 image_count))
    ([], np_zeros).

(** Line 155 of [main]. *)
Definition pupil_points : list point :=
  let pp := calculate_pupil_points output_width output_height in
  [as_point (fst pp); as_point (snd pp)].

(** Lines 160-167 of [main]. *)
Definition pass1 (all_images_points : list (list point))
  : outcome (list (option mat23 * list point)) :=
  for_each (pass1_photo pupil_points) all_images_points.

(** Line 170 of [main]. *)
Definition averaged_landmarks
  (transformed_images_points : list (list point)) : outcome (list point) :=
  arr <- np_array transformed_images_points ;;
  Returned (np_average arr).

(** Lines 155-205 of [main], on the lists [load_data] returned. *)
Definition align (all_images : list image)
  (all_images_points : list (list point)) : outcome output :=
  firsts <- pass1 all_images_points ;;
  let all_transforms := map fst firsts in
  let transformed_images_points := map snd firsts in
  averaged_points <- averaged_landmarks transformed_images_points ;;
  all_transforms2 <-
    for_each (pass2_photo averaged_points)
      (combine transformed_images_points all_transforms) ;;
  d0 <- getitem averaged_points 0 ;;
  d3 <- getitem averaged_points 3 ;;
  d4 <- getitem averaged_points 4 ;;
  let destination_triangle := [d0; d3; d4] in
  all_transforms3 <-
    for_each (pass3_photo destination_triangle) all_images_points ;;
  let '(written, average_image) := composite all_images all_transforms3 in
  Returned (Build_output all_transforms3 written average_image).

(** Lines 151-205. *)
Definition main (entries : list (image * list point)) : outcome output :=
  let '(all_images, all_images_points) := load_data entries in
  align all_images all_images_points.

(** [align] with the second loop (lines 172-179) taken out. *)
Definition align_without_pass2 (all_images : list image)
  (all_images_points : list (list point)) : outcome output :=
  firsts <- pass1 all_images_points ;;
  let transformed_images_points := map snd firsts in
  averaged_points <- averaged_landmarks transformed_images_points ;;
  d0 <- getitem averaged_points 0 ;;
  d3 <- getitem averaged_points 3 ;;
  d4 <- getitem averaged_points 4 ;;
  let destination_triangle := [d0; d3; d4] in
  all_transforms3 <-
    for_each (pass3_photo destination_triangle) all_images_points ;;
  let '(written, average_image) := composite all_images all_transforms3 in
  Returned (Build_output all_transforms3 written average_image).

End Pipeline.

(* ================================================================== *)
(** * Vocabulary of the properties *)
(* ================================================================== *)

(** The canonical pupil positions on the 600 x 800 canvas. *)
Definition left_target : point := (600 * 0.35, 800 * 0.4).
Definition right_target : point := (600 * (1 - 0.35), 800 * 0.4).

(** A point under a matrix: the point is made homogeneous first. *)
Definition transform_point (T : mat23) (p : point) : point :=
  dot T (fst p, snd p, 1).

(** What the first loop asks of OpenCV for one photo: slots 0 and 3 and
    the two pupil positions, each pair completed to a triangle. *)
Definition pupil_estimate (cv : CV2) (image_points : list point)
  : option mat23 :=
  match image_points with
  | p0 :: _ :: _ :: p3 :: _ =>
      estimateRigidTransform cv
        [p0; p3; calculate_third_equilateral_point p0 p3]
        [left_target; right_target;
         calculate_third_equilateral_point left_target right_target]
        false
  | _ => None
  end.

(** A landmark set the pipeline can align: five points, and a first
    estimate that is not [None]. *)
Definition eligible (cv : CV2) (image_points : list point) : Prop :=
  length image_points = 5%nat /\ pupil_estimate cv image_points <> None.

(** What the first loop leaves for a photo: the estimate, and the
    landmarks under it. *)
Definition pass1_result (cv : CV2) (image_points : list point)
  : option mat23 * list point :=
  match pupil_estimate cv image_points with
  | Some T => (Some T, map (transform_point T) image_points)
  | None => (None, image_points)
  end.

(** Slots 0, 3 and 4 of a landmark set: pupil, pupil, mouth. *)
Definition triangle (pts : list point) : list point :=
  [nth 0 pts (0, 0); nth 3 pts (0, 0); nth 4 pts (0, 0)].

(** The averaged landmarks of a batch of eligible photos. *)
Definition batch_average (cv : CV2) (photos : list (list point))
  : list point :=
  np_average (map (fun pts => snd (pass1_result cv pts)) photos).

(** The final transform of a photo: the affine solve from its own
    triangle to the triangle of the averaged landmarks. *)
Definition final_transform (cv : CV2) (averaged image_points : list point)
  : mat23 :=
  getAffineTransform cv (triangle image_points) (triangle averaged).

(** The image that one pass of the last loop warps, from the image, its
    final transform and its number. *)
Definition warped (cv : CV2) (it : image * mat23 * nat) : image :=
  warpAffine cv (fst (fst it)) (snd (fst it)) (output_width, output_height).

Definition turns (all_images : list image) (all_transforms3 : list mat23)
  : list (image * mat23 * nat) :=
  combine (combine all_images all_transforms3) (seq 0 (length all_images)).

(** Sum of a list of reals. *)
Definition Rsum (xs : list R) : R := fold_right Rplus 0 xs.



(* ================================================================== *)
(** * A sample OpenCV, to run the pipeline on concrete batches *)
(* ================================================================== *)

Module Sample.

(** No result on a triangle of area zero, the exact solve otherwise. *)
Definition estimate (src dst : list point) (fullAffine : bool)
  : option mat23 :=
  match src with
  | [a; b; c] =>
      if Req_dec_T (area2 a b c) 0 then None
      else Some (affine_solve src dst)
  | _ => None
  end.

(** The inverse of the affine map of a matrix. *)
Definition invert (M : mat23) : mat23 :=
  let D := m00 M * m11 M - m01 M * m10 M in
  let a := m11 M / D in
  let b := - m01 M / D in
  let d := - m10 M / D in
  let e := m00 M / D in
  Mat23 a b (- (a * m02 M + b * m12 M)) d e (- (d * m02 M + e * m12 M)).

(** Each canvas sample is read back in the source at the nearest sample
    below its preimage; zero outside the canvas and left of or above the
    source. *)
Definition warp (im : image) (M : mat23) (dsize : Z * Z) : image :=
  fun r c k =>
    let '(w, h) := dsize in
    let '(sx, sy) := transform_point (invert M) (INR c, INR r) in
    let ix := Int_part sx in
    let iy := Int_part sy in
    if ((Z.of_nat c <? w) && (Z.of_nat r <? h)
        && (0 <=? ix) && (0 <=? iy))%Z
    then im (Z.to_nat iy) (Z.to_nat ix) k
    else 0.

Definition cv : CV2 := Build_CV2 estimate affine_solve warp.

(** Left pupil, left tear duct, right tear duct, right pupil, mouth. *)
Definition face : list point := [(2, 2); (3, 2); (5, 2); (6, 2); (4, 5)].

(** A uniformly grey picture. *)
Definition grey : image := fun _ _ _ => 1 / 2.

End Sample.

(* ================================================================== *)
(** * Vocabulary of the further properties *)
(* ================================================================== *)

(** The matrix of a rotation with uniform scale, [p + iq] as a complex
    factor, followed by the translation [(tx, ty)]. *)
Definition similarity (p q tx ty : R) : mat23 := Mat23 p (- q) tx q p ty.

(** Two landmark sets with the same pupils and mouth. *)
Definition same_triangle (pts pts' : list point) : Prop :=
  nth 0 pts (0, 0) = nth 0 pts' (0, 0) /\
  nth 3 pts (0, 0) = nth 3 pts' (0, 0) /\
  nth 4 pts (0, 0) = nth 4 pts' (0, 0).

(** All landmark sets of a batch have one length. *)
Definition uniform (photos : list (list point)) : Prop :=
  forall p q, In p photos -> In q photos -> length p = length q.

(** The first estimate of a photo found nothing. *)
Definition no_estimate (cv : CV2) (image_points : list point) : Prop :=
  pupil_estimate cv image_points = None.

(* ================================================================== *)
(** * Reading the coordinate files *)
(* ================================================================== *)

Module Str.

(** [s.split(sep)] for a separator of one character: the pieces between
    the separators, empty ones included; one piece when there is no
    separator. *)
Fixpoint split (sep : Ascii.ascii) (s : string) : list string :=
  match s with
  | EmptyString => [EmptyString]
  | String c rest =>
      if Ascii.eqb c sep then EmptyString :: split sep rest
      else match split sep rest with
           | piece :: pieces => String c piece :: pieces
           | [] => [String c EmptyString]
           end
  end.

(** [s[:-n]]: [s] without its last [n] characters, empty when [s] is
    shorter. *)
Definition drop_last (n : nat) (s : string) : string :=
  substring 0 (String.length s - n) s.

(** [c in s]. *)
Fixpoint contains (c : Ascii.ascii) (s : string) : bool :=
  match s with
  | EmptyString => false
  | String c' rest => Ascii.eqb c' c || contains c rest
  end.

End Str.

(** What the loader reads: whether a path is a file, the lines of a text
    file (each with its line end; a file that exists can be read), the
    image [cv2.imread] gives for a path, and the number [np.float32] reads
    in a string ([None] where it raises [ValueError]). *)
Record Disk : Type := {
  isfile : string -> bool;
  lines_of : string -> list string;
  imread : string -> image;
  np_float32 : string -> option R
}.

Section Loading.

Context (disk : Disk).

Definition to_float32 (s : string) : outcome R :=
  match np_float32 disk s with
  | Some v => Returned v
  | None => Raised "ValueError"%string
  end.

(** Lines 43-44: one line of a coordinate file.  Unpacking anything but
    two pieces into [x, y] is a [ValueError]. *)
Definition read_line (line : string) : outcome point :=
  match firstn 2 (Str.split " "%char line) with
  | [x; y] =>
      fx <- to_float32 x ;;
      fy <- to_float32 y ;;
      Returned (fx, fy)
  | _ => Raised "ValueError"%string
  end.

(** Lines 33-46. *)
Definition load_coords_for_image (jpg_path : string)
  : outcome (list point) :=
  let coords_path := (Str.drop_last 4 jpg_path ++ ".txt")%string in
  if isfile disk coords_path
  then for_each read_line (lines_of disk coords_path)
  else Returned [].

(** Lines 53-70, on the paths [glob] found: the loop of [load_data] from
    the lists gathered so far. *)
Fixpoint load_loop (jpg_paths : list string)
  (all_images : list image) (all_coords : list (list point))
  : outcome (list image * list (list point)) :=
  match jpg_paths with
  | [] => Returned (all_images, all_coords)
  | jpg_path :: rest =>
      coords <- load_coords_for_image jpg_path ;;
      if (length coords <? 5)%nat
      then load_loop rest all_images all_coords
      else
        let img := (fun r c k => imread disk jpg_path r c k / 255) : image in
        load_loop rest (all_images ++ [img]) (all_coords ++ [coords])
  end.

(** Lines 49-70, reading included. *)
Definition load_data_from (jpg_paths : list string)
  : outcome (list image * list (list point)) :=
  load_loop jpg_paths [] [].

End Loading.

(** A sample directory: [a.jpg] with a well-formed [a.txt], [b.jpg] whose
    [b.txt] ends in an empty line, and [c.jpg] without a text file. *)
Module SampleDisk.

Definition newline : string := String (ascii_of_nat 10) EmptyString.

Definition a_txt : list string :=
  [("1 2" ++ newline)%string; ("3 4 5" ++ newline)%string].

Definition b_txt : list string := [("1 2" ++ newline)%string; newline].

Definition float_of (s : string) : option R :=
  if String.eqb s "1" then Some 1
  else if String.eqb s ("2" ++ newline) then Some 2
  else if String.eqb s "3" then Some 3
  else if String.eqb s "4" then Some 4
  else None.

Definition disk : Disk :=
  Build_Disk
    (fun path => String.eqb path "a.txt" || String.eqb path "b.txt")
    (fun path => if String.eqb path "a.txt" then a_txt else b_txt)
    (fun _ => Sample.grey)
    float_of.

End SampleDisk.

(* ================================================================== *)
(** * Single precision: the float32 arrays of lines 170 and 181-200 *)
(* ================================================================== *)

(** [2 ** e]. *)
Definition pow2 (e : Z) : R := powerRZ 2 e.

(** The float32 value nearest to a real number, ties to the even
    significand: for [2 ** e <= |x| < 2 ** (e + 1)] the float32 values are
    the multiples of [2 ** (e - 23)] (24 significant bits), the exponent
    [e] being taken no lower than -126 (below [2 ** -126] the float32
    values are the multiples of [2 ** -149]).  Beyond [float32_max] numpy
    gives [inf], which is no real number: the properties of this function
    keep to the finite range. *)
Definition float32 (x : R) : R :=
  let e := Z.max (-126) (Int_part (ln (Rabs x) / ln 2)) in
  IZR (Py.round_half_even (x * pow2 (23 - e))) * pow2 (e - 23).










(* ================================================================== *)
(** * Numbers: truncation and rounding *)
(* ================================================================== *)

Lemma Int_part_IZR (z : Z) : Int_part (IZR z) = z.
Proof.
  unfold Int_part.
  assert (H : (z + 1)%Z = up (IZR z)).
  { apply tech_up; rewrite plus_IZR; lra. }
  lia.
Qed.

Lemma Int_part_unique (y : R) (k : Z) :
  IZR k <= y < IZR k + 1 -> Int_part y = k.
Proof.
  intros [Hlo Hhi]. unfold Int_part.
  assert (H : (k + 1)%Z = up y).
  { apply tech_up; rewrite plus_IZR; lra. }
  lia.
Qed.

Lemma int_IZR (z : Z) : (0 <= z)%Z -> Py.int (IZR z) = z.
Proof.
  intros Hz. unfold Py.int.
  destruct (Rle_dec 0 (IZR z)) as [_ | Hn].
  - apply Int_part_IZR.
  - exfalso. apply Hn. now apply IZR_le.
Qed.

Lemma round_half_even_near (y : R) (k : Z) :
  IZR k - 1 / 2 < y < IZR k + 1 / 2 -> Py.round_half_even y = k.
Proof.
  intros [Hlo Hhi]. unfold Py.round_half_even.
  destruct (Rle_dec (IZR k) y) as [Hge | Hlt].
  - rewrite (Int_part_unique y k) by lra.
    destruct (Rlt_dec (y - IZR k) (1 / 2)); [reflexivity | lra].
  - assert (Hf : Int_part y = (k - 1)%Z).
    { apply Int_part_unique. rewrite minus_IZR. lra. }
    rewrite Hf, minus_IZR.
    destruct (Rlt_dec (y - (IZR k - 1)) (1 / 2)); [lra |].
    destruct (Rlt_dec (1 / 2) (y - (IZR k - 1))); [lia | lra].
Qed.

Lemma round3_near (x : R) (k : Z) :
  IZR k - 1 / 2 < x * 1000 < IZR k + 1 / 2 ->
  Py.round x 3 = IZR k / 1000.
Proof.
  intros H. unfold Py.round.
  replace (10 ^ 3) with 1000 by (simpl; lra).
  now rewrite (round_half_even_near _ k).
Qed.

Lemma COS_PI3_half : COS_PI3 = 1 / 2.
Proof. unfold COS_PI3, PI3. apply cos_PI3. Qed.

Lemma SIN_PI3_sqrt3 : SIN_PI3 = sqrt 3 / 2.
Proof. unfold SIN_PI3, PI3. apply sin_PI3. Qed.

Lemma sqrt3_sq : sqrt 3 * sqrt 3 = 3.
Proof. apply sqrt_sqrt; lra. Qed.

Lemma sqrt3_bounds : 1.7320 < sqrt 3 < 1.7321.
Proof.
  pose proof sqrt3_sq as Hs.
  pose proof (sqrt_pos 3) as Hp.
  split; nra.
Qed.

(* ================================================================== *)
(** * Rounding to float32 *)
(* ================================================================== *)

Lemma ln2_pos : 0 < ln 2.
Proof. rewrite <- ln_1. apply ln_increasing; lra. Qed.

Lemma pow2_exp (e : Z) : pow2 e = exp (IZR e * ln 2).
Proof. unfold pow2. rewrite powerRZ_Rpower by lra. reflexivity. Qed.

Lemma pow2_pos (e : Z) : 0 < pow2 e.
Proof. apply powerRZ_lt. lra. Qed.

Lemma pow2_add (a b : Z) : pow2 (a + b) = pow2 a * pow2 b.
Proof. unfold pow2. apply powerRZ_add. lra. Qed.

Lemma pow2_lt (a b : Z) : (a < b)%Z -> pow2 a < pow2 b.
Proof.
  intros H. rewrite !pow2_exp. apply exp_increasing.
  apply Rmult_lt_compat_r; [apply ln2_pos | now apply IZR_lt].
Qed.

Lemma pow2_le (a b : Z) : (a <= b)%Z -> pow2 a <= pow2 b.
Proof.
  intros H. destruct (Z.eq_dec a b) as [-> | Hne]; [lra |].
  left. apply pow2_lt. lia.
Qed.

Lemma pow2_lt_inv (a b : Z) : pow2 a < pow2 b -> (a < b)%Z.
Proof.
  intros H. destruct (Z_lt_le_dec a b) as [Hlt | Hge]; [exact Hlt |].
  apply pow2_le in Hge. lra.
Qed.

Lemma pow2_0 : pow2 0 = 1.
Proof. reflexivity. Qed.

Lemma pow2_cancel (a : Z) : pow2 a * pow2 (- a) = 1.
Proof.
  rewrite <- pow2_add. replace (a + - a)%Z with 0%Z by lia. reflexivity.
Qed.

Lemma log2_floor_spec (x : R) :
  0 < x ->
  pow2 (Int_part (ln x / ln 2)) <= x < pow2 (Int_part (ln x / ln 2) + 1).
Proof.
  intros Hx. pose proof ln2_pos as H2.
  destruct (base_Int_part (ln x / ln 2)) as [H1 H3].
  set (e := Int_part (ln x / ln 2)) in *.
  assert (E : ln x / ln 2 * ln 2 = ln x) by (field; lra).
  rewrite !pow2_exp, plus_IZR.
  pose proof (exp_ln x Hx) as Ex.
  split.
  - destruct (Req_dec (IZR e * ln 2) (ln x)) as [-> | Hne]; [lra |].
    rewrite <- Ex. left. apply exp_increasing. nra.
  - rewrite <- Ex at 1. apply exp_increasing. nra.
Qed.

Lemma log2_floor_unique (x : R) (e : Z) :
  pow2 e <= x < pow2 (e + 1) -> Int_part (ln x / ln 2) = e.
Proof.
  intros [H1 H2].
  assert (Hx : 0 < x) by (pose proof (pow2_pos e); lra).
  destruct (log2_floor_spec x Hx) as [H3 H4].
  set (i := Int_part (ln x / ln 2)) in *.
  assert (A : (e < i + 1)%Z) by (apply pow2_lt_inv; lra).
  assert (B : (i < e + 1)%Z) by (apply pow2_lt_inv; lra).
  lia.
Qed.

Lemma float32_binade (x : R) (e : Z) :
  (-126 <= e)%Z -> pow2 e <= Rabs x < pow2 (e + 1) ->
  float32 x = IZR (Py.round_half_even (x * pow2 (23 - e))) * pow2 (e - 23).
Proof.
  intros He Hx. unfold float32.
  rewrite (log2_floor_unique _ e Hx).
  now rewrite Z.max_r by lia.
Qed.

Lemma round_half_even_0 : Py.round_half_even 0 = 0%Z.
Proof.
  unfold Py.round_half_even. rewrite (Int_part_IZR 0).
  destruct (Rlt_dec (0 - 0) (1 / 2)); [reflexivity | lra].
Qed.

Lemma float32_0 : float32 0 = 0.
Proof.
  unfold float32. rewrite Rmult_0_l, round_half_even_0. ring.
Qed.

Lemma float32_small (x : R) :
  Rabs x < pow2 (-126) ->
  float32 x = IZR (Py.round_half_even (x * pow2 149)) * pow2 (-149).
Proof.
  intros Hx. destruct (Req_dec x 0) as [-> | Hne].
  - rewrite float32_0, Rmult_0_l, round_half_even_0. ring.
  - unfold float32.
    assert (Hp : 0 < Rabs x) by now apply Rabs_pos_lt.
    destruct (log2_floor_spec _ Hp) as [H1 _].
    set (i := Int_part (ln (Rabs x) / ln 2)) in *.
    assert (Hi : (i < -126)%Z) by (apply pow2_lt_inv; lra).
    rewrite Z.max_l by lia. reflexivity.
Qed.

Lemma round_half_even_error (y : R) :
  y - 1 / 2 <= IZR (Py.round_half_even y) <= y + 1 / 2.
Proof.
  unfold Py.round_half_even.
  destruct (base_Int_part y) as [H1 H2].
  set (f := Int_part y) in *.
  destruct (Rlt_dec (y - IZR f) (1 / 2)); [lra |].
  destruct (Rlt_dec (1 / 2) (y - IZR f)).
  - rewrite plus_IZR. lra.
  - destruct (Z.even f); [lra | rewrite plus_IZR; lra].
Qed.

Lemma round_half_even_IZR (k : Z) : Py.round_half_even (IZR k) = k.
Proof.
  unfold Py.round_half_even. rewrite Int_part_IZR.
  destruct (Rlt_dec (IZR k - IZR k) (1 / 2)); [reflexivity | lra].
Qed.

Lemma round_half_even_between (y : R) (a b : Z) :
  IZR a <= y <= IZR b -> (a <= Py.round_half_even y <= b)%Z.
Proof.
  intros [Ha Hb]. destruct (round_half_even_error y) as [H1 H2].
  split.
  - assert (H : (a - 1 < Py.round_half_even y)%Z)
      by (apply lt_IZR; rewrite minus_IZR; lra).
    lia.
  - assert (H : (Py.round_half_even y < b + 1)%Z)
      by (apply lt_IZR; rewrite plus_IZR; lra).
    lia.
Qed.


Lemma float32_round_to (x : R) (e k : Z) :
  (-126 <= e)%Z -> pow2 e <= Rabs x < pow2 (e + 1) ->
  IZR k - 1 / 2 < x * pow2 (23 - e) < IZR k + 1 / 2 ->
  float32 x = IZR k * pow2 (e - 23).
Proof.
  intros He Hx Hk. rewrite (float32_binade x e He Hx).
  now rewrite (round_half_even_near _ k Hk).
Qed.

Lemma float32_low (x : R) :
  Rabs x < pow2 (-125) ->
  float32 x = IZR (Py.round_half_even (x * pow2 149)) * pow2 (-149).
Proof.
  intros Hx. destruct (Rlt_dec (Rabs x) (pow2 (-126))) as [Hs | Hn].
  - now apply float32_small.
  - apply (float32_binade x (-126)); [lia |]. split; [lra | exact Hx].
Qed.

Lemma pow2_23 : pow2 23 = 8388608.
Proof. unfold pow2. simpl. lra. Qed.

Lemma pow2_24 : pow2 24 = 16777216.
Proof. unfold pow2. simpl. lra. Qed.

Lemma float32_of_scaled (k e : Z) :
  (-126 <= e)%Z -> (8388608 <= Z.abs k < 16777216)%Z ->
  float32 (IZR k * pow2 (e - 23)) = IZR k * pow2 (e - 23).
Proof.
  intros He Hk.
  assert (Hc : pow2 (e - 23) * pow2 (23 - e) = 1).
  { replace (23 - e)%Z with (- (e - 23))%Z by lia. apply pow2_cancel. }
  rewrite (float32_binade _ e He).
  - rewrite Rmult_assoc, Hc, Rmult_1_r. now rewrite round_half_even_IZR.
  - pose proof (pow2_pos (e - 23)) as Hp.
    rewrite Rabs_mult, (Rabs_pos_eq (pow2 _)) by lra.
    rewrite <- abs_IZR.
    replace (pow2 e) with (pow2 23 * pow2 (e - 23))
      by (rewrite <- pow2_add; f_equal; lia).
    replace (pow2 (e + 1)) with (pow2 24 * pow2 (e - 23))
      by (rewrite <- pow2_add; f_equal; lia).
    rewrite pow2_23, pow2_24.
    destruct Hk as [H1 H2]. apply IZR_le in H1. apply IZR_lt in H2.
    split; nra.
Qed.

Lemma float32_of_low (k : Z) :
  (Z.abs k <= 8388608)%Z ->
  float32 (IZR k * pow2 (-149)) = IZR k * pow2 (-149).
Proof.
  intros Hk.
  assert (Hc : pow2 (-149) * pow2 149 = 1).
  { rewrite Rmult_comm. apply (pow2_cancel 149). }
  rewrite float32_low.
  - rewrite Rmult_assoc, Hc, Rmult_1_r. now rewrite round_half_even_IZR.
  - pose proof (pow2_pos (-149)) as Hp.
    rewrite Rabs_mult, (Rabs_pos_eq (pow2 _)) by lra.
    rewrite <- abs_IZR.
    replace (pow2 (-125)) with (pow2 24 * pow2 (-149))
      by (rewrite <- pow2_add; f_equal).
    rewrite pow2_24. apply IZR_le in Hk. nra.
Qed.

(** Rounding to float32 a second time changes nothing. *)
Lemma float32_idempotent (x : R) : float32 (float32 x) = float32 x.
Proof.
  destruct (Rlt_dec (Rabs x) (pow2 (-126))) as [Hs | Hn].
  - rewrite (float32_small x Hs). apply float32_of_low.
    assert (Hb : - pow2 23 <= x * pow2 149 <= pow2 23).
    { pose proof (pow2_pos 149) as Hp.
      assert (E : pow2 (-126) * pow2 149 = pow2 23)
        by (rewrite <- pow2_add; f_equal).
      unfold Rabs in Hs. destruct (Rcase_abs x); split; nra. }
    rewrite pow2_23 in Hb.
    destruct (round_half_even_between _ (-8388608) 8388608 Hb). lia.
  - assert (Hp : 0 < Rabs x) by (pose proof (pow2_pos (-126)); lra).
    destruct (log2_floor_spec _ Hp) as [H1 H2].
    set (e := Int_part (ln (Rabs x) / ln 2)) in *.
    assert (He : (-126 <= e)%Z).
    { assert (H : (-126 < e + 1)%Z) by (apply pow2_lt_inv; lra). lia. }
    rewrite (float32_binade x e He (conj H1 H2)).
    set (k := Py.round_half_even (x * pow2 (23 - e))).
    assert (Hs1 : pow2 e * pow2 (23 - e) = pow2 23)
      by (rewrite <- pow2_add; f_equal; lia).
    assert (Hs2 : pow2 (e + 1) * pow2 (23 - e) = pow2 24)
      by (rewrite <- pow2_add; f_equal; lia).
    pose proof (pow2_pos (23 - e)) as Hq.
    rewrite pow2_23 in Hs1. rewrite pow2_24 in Hs2.
    assert (Hk : (8388608 <= Z.abs k <= 16777216)%Z).
    { unfold Rabs in H1, H2. destruct (Rcase_abs x) as [Hneg | Hpos].
      - assert (Hb : IZR (-16777216) <= x * pow2 (23 - e)
                     <= IZR (-8388608)) by (split; nra).
        destruct (round_half_even_between _ _ _ Hb). fold k in H, H0. lia.
      - assert (Hb : IZR 8388608 <= x * pow2 (23 - e) <= IZR 16777216)
          by (split; nra).
        destruct (round_half_even_between _ _ _ Hb). fold k in H, H0. lia. }
    destruct (Z.eq_dec (Z.abs k) 16777216) as [Hmax | Hlt].
    + assert (Hup : pow2 (e + 1 - 23) = 2 * pow2 (e - 23)).
      { replace (e + 1 - 23)%Z with (1 + (e - 23))%Z by lia.
        rewrite pow2_add. change (pow2 1) with (2 * 1). ring. }
      assert (Hk2 : k = 16777216%Z \/ k = (-16777216)%Z) by lia.
      destruct Hk2 as [-> | ->].
      * replace (16777216 * pow2 (e - 23))
          with (IZR 8388608 * pow2 (e + 1 - 23)) by (rewrite Hup; lra).
        apply float32_of_scaled; lia.
      * replace (-16777216 * pow2 (e - 23))
          with (IZR (-8388608) * pow2 (e + 1 - 23)) by (rewrite Hup; lra).
        apply float32_of_scaled; lia.
    + apply float32_of_scaled; lia.
Qed.

Lemma float32_tenth : float32 (1 / 10) = 13421773 / 134217728.
Proof.
  rewrite (float32_round_to _ (-4) 13421773).
  - unfold pow2. simpl. lra.
  - lia.
  - unfold pow2. simpl. rewrite Rabs_pos_eq; lra.
  - unfold pow2. simpl. lra.
Qed.

(* ================================================================== *)
(** * The third point of the equilateral triangle *)
(* ================================================================== *)

Lemma third_point_formula (a b : point) :
  calculate_third_equilateral_point a b =
  (1 / 2 * (fst a - fst b) - sqrt 3 / 2 * (snd a - snd b) + fst b,
   sqrt 3 / 2 * (fst a - fst b) + 1 / 2 * (snd a - snd b) + snd b).
Proof.
  destruct a as [ax ay], b as [bx b_y].
  unfold calculate_third_equilateral_point.
  now rewrite COS_PI3_half, SIN_PI3_sqrt3.
Qed.

Lemma third_point_sides (a b : point) :
  dist2 b (calculate_third_equilateral_point a b) = dist2 a b /\
  dist2 (calculate_third_equilateral_point a b) a = dist2 a b.
Proof.
  rewrite third_point_formula.
  destruct a as [ax ay], b as [bx b_y]. unfold dist2; simpl.
  pose proof sqrt3_sq as Hs. set (s := sqrt 3) in *.
  split.
  - transitivity ((ax - bx) * (ax - bx) + (ay - b_y) * (ay - b_y)
                  + (s * s - 3) * (((ax - bx) * (ax - bx)
                                    + (ay - b_y) * (ay - b_y)) / 4)).
    + field.
    + rewrite Hs. ring.
  - transitivity ((ax - bx) * (ax - bx) + (ay - b_y) * (ay - b_y)
                  + (s * s - 3) * (((ax - bx) * (ax - bx)
                                    + (ay - b_y) * (ay - b_y)) / 4)).
    + field.
    + rewrite Hs. ring.
Qed.

(** C4.  [calculate_third_equilateral_point a b] is [a] turned around [b]
    by pi/3: its coordinates are the two rotation formulas, the three
    points are at equal distances from one another, and the three doctest
    values come out after rounding to three decimals. *)
Theorem third_point_rotation_equilateral :
  (forall a b : point,
      calculate_third_equilateral_point a b =
      (cos (PI / 3) * (fst a - fst b) - sin (PI / 3) * (snd a - snd b) + fst b,
       sin (PI / 3) * (fst a - fst b) + cos (PI / 3) * (snd a - snd b) + snd b)
      /\ dist2 a b = dist2 b (calculate_third_equilateral_point a b)
      /\ dist2 a b = dist2 (calculate_third_equilateral_point a b) a)
  /\ (let c := calculate_third_equilateral_point (0, 0) (2, 0) in
      (Py.round (fst c) 3, Py.round (snd c) 3) = (1.0, -1.732))
  /\ (let c := calculate_third_equilateral_point (0, 0) (0, 2) in
      (Py.round (fst c) 3, Py.round (snd c) 3) = (1.732, 1.0))
  /\ (let c := calculate_third_equilateral_point (2, 2) (4, 2) in
      (Py.round (fst c) 3, Py.round (snd c) 3) = (3.0, 0.268)).
Proof.
  pose proof sqrt3_bounds as Hb.
  repeat split.
  - destruct a as [ax ay], b as [bx b_y]. reflexivity.
  - symmetry. apply third_point_sides.
  - symmetry. apply third_point_sides.
  - rewrite third_point_formula; simpl. f_equal.
    + rewrite (round3_near _ 1000); lra.
    + rewrite (round3_near _ (-1732)); lra.
  - rewrite third_point_formula; simpl. f_equal.
    + rewrite (round3_near _ 1732); lra.
    + rewrite (round3_near _ 1000); lra.
  - rewrite third_point_formula; simpl. f_equal.
    + rewrite (round3_near _ 3000); lra.
    + rewrite (round3_near _ 268); lra.
Qed.

(* ================================================================== *)
(** * Loops and indexing *)
(* ================================================================== *)

Section ForEach.

Context {A B : Type} (f : A -> outcome B).

Lemma for_each_map (g : A -> B) (xs : list A) :
  (forall x, In x xs -> f x = Returned (g x)) ->
  for_each f xs = Returned (map g xs).
Proof.
  induction xs as [| x xs IH]; intros H; simpl.
  - reflexivity.
  - rewrite (H x) by now left. simpl.
    rewrite IH by (intros y Hy; apply H; now right).
    reflexivity.
Qed.

Lemma for_each_Raised (xs : list A) (e : exn) :
  for_each f xs = Raised e -> exists x, In x xs /\ f x = Raised e.
Proof.
  induction xs as [| x xs IH]; simpl; intros H.
  - discriminate.
  - destruct (f x) as [y | e'] eqn:Hx; simpl in H.
    + destruct (for_each f xs) as [ys | e''] eqn:Hxs; simpl in H.
      * discriminate.
      * injection H as ->. destruct (IH eq_refl) as [z [Hz1 Hz2]].
        exists z. split; [now right | assumption].
    + injection H as ->. exists x. split; [now left | assumption].
Qed.

Lemma for_each_Returned (xs : list A) (ys : list B) :
  for_each f xs = Returned ys -> Forall2 (fun x y => f x = Returned y) xs ys.
Proof.
  revert ys. induction xs as [| x xs IH]; simpl; intros ys H.
  - injection H as <-. constructor.
  - destruct (f x) as [y | e'] eqn:Hx; simpl in H; [| discriminate].
    destruct (for_each f xs) as [ys' | e''] eqn:Hxs; simpl in H;
      [| discriminate].
    injection H as <-. constructor; [assumption | now apply IH].
Qed.

Lemma for_each_total (xs : list A) :
  (forall x, In x xs -> exists y, f x = Returned y) ->
  exists ys, for_each f xs = Returned ys.
Proof.
  induction xs as [| x xs IH]; intros H; simpl.
  - now exists [].
  - destruct (H x) as [y Hy]; [now left |].
    destruct IH as [ys Hys]; [intros z Hz; apply H; now right |].
    exists (y :: ys). now rewrite Hy, Hys.
Qed.

End ForEach.

Lemma getitem_nth {A} (xs : list A) (i : nat) (d : A) :
  (i < length xs)%nat -> getitem xs i = Returned (nth i xs d).
Proof.
  intros H. unfold getitem.
  now rewrite (nth_error_nth' xs d H).
Qed.

Lemma getitem_short {A} (xs : list A) (i : nat) :
  (length xs <= i)%nat -> @getitem A xs i = Raised "IndexError"%string.
Proof.
  intros H. unfold getitem.
  apply nth_error_None in H. now rewrite H.
Qed.

Lemma getitem_Raised {A} (xs : list A) (i : nat) (e : exn) :
  getitem xs i = Raised e -> e = "IndexError"%string /\ (length xs <= i)%nat.
Proof.
  unfold getitem. destruct (nth_error xs i) eqn:H; intros E.
  - discriminate.
  - injection E as <-. split; [reflexivity | now apply nth_error_None].
Qed.

Lemma getitem_Returned {A} (xs : list A) (i : nat) (a : A) :
  getitem xs i = Returned a -> nth_error xs i = Some a.
Proof.
  unfold getitem. destruct (nth_error xs i); intros E;
    [now injection E as -> | discriminate].
Qed.

(* ================================================================== *)
(** * The pupil positions and the first loop *)
(* ================================================================== *)

Lemma pupil_points_targets : pupil_points = [left_target; right_target].
Proof.
  unfold pupil_points, calculate_pupil_points, output_width, output_height.
  replace (600 * 0.35) with (IZR 210) by lra.
  replace (800 * 0.4) with (IZR 320) by lra.
  replace (600 * (1.0 - 0.35)) with (IZR 390) by lra.
  rewrite !int_IZR by lia.
  unfold as_point, left_target, right_target; simpl.
  repeat f_equal; lra.
Qed.

(** [int] truncates: on a canvas 601 wide the left pupil would sit at
    column 210, short of 601 * 0.35. *)
Example pupil_points_truncated :
  fst (fst (calculate_pupil_points 601 800)) = 210%Z /\ IZR 210 < 601 * 0.35.
Proof.
  split; [| lra].
  unfold calculate_pupil_points, Py.int; simpl fst.
  destruct (Rle_dec 0 (601 * 0.35)) as [_ | Hn]; [| exfalso; lra].
  apply Int_part_unique. lra.
Qed.

(** [load_data] keeps an image for each landmark set it keeps, and only
    sets of at least five points. *)
Lemma load_data_landmarks (entries : list (image * list point)) :
  length (fst (load_data entries)) = length (snd (load_data entries)) /\
  Forall (fun pts => (5 <= length pts)%nat) (snd (load_data entries)).
Proof.
  unfold load_data; simpl. rewrite !length_map. split; [reflexivity |].
  apply Forall_forall. intros pts Hin.
  apply in_map_iff in Hin as [e [<- He]].
  apply filter_In in He as [_ He].
  apply negb_true_iff, Nat.ltb_ge in He. exact He.
Qed.

Section FirstLoop.

Context (cv : CV2).

Lemma transform_dot_each (T : mat23) (pts : list point) :
  for_each (fun point => transform_dot (Some T) (fst point, snd point, 1)) pts
  = Returned (map (transform_point T) pts).
Proof. apply for_each_map. intros; reflexivity. Qed.

Lemma pass1_photo_eligible (pts : list point) :
  eligible cv pts ->
  pass1_photo cv pupil_points pts = Returned (pass1_result cv pts).
Proof.
  intros [Hlen Hest]. rewrite pupil_points_targets.
  unfold pass1_result.
  destruct pts as [| p0 [| p1 [| p2 [| p3 [| p4 [| p5 rest]]]]]];
    try discriminate Hlen.
  unfold pass1_photo, getitem; simpl.
  simpl in Hest.
  destruct (estimateRigidTransform cv _ _ false) as [T |] eqn:HT;
    [| contradiction].
  reflexivity.
Qed.

Lemma pass1_eligible (photos : list (list point)) :
  Forall (eligible cv) photos ->
  pass1 cv photos = Returned (map (pass1_result cv) photos).
Proof.
  intros H. apply for_each_map. intros pts Hin.
  apply pass1_photo_eligible. rewrite Forall_forall in H. now apply H.
Qed.

Lemma pass1_result_eligible (pts : list point) :
  eligible cv pts ->
  exists T, pupil_estimate cv pts = Some T /\
            pass1_result cv pts = (Some T, map (transform_point T) pts).
Proof.
  intros [_ Hest]. unfold pass1_result.
  destruct (pupil_estimate cv pts) as [T |]; [| contradiction].
  now exists T.
Qed.

Lemma pass1_result_length (pts : list point) :
  length (snd (pass1_result cv pts)) = length pts.
Proof.
  unfold pass1_result. destruct (pupil_estimate cv pts); simpl;
    [apply length_map | reflexivity].
Qed.

End FirstLoop.

(** The third point is off the line through the two given points: the
    triangle has area [sqrt 3 / 4] times the squared side. *)
Lemma third_point_area (a b : point) :
  area2 a b (calculate_third_equilateral_point a b)
  = - (sqrt 3 / 2) * dist2 a b.
Proof.
  rewrite third_point_formula.
  destruct a as [ax ay], b as [bx b_y]. unfold area2, dist2; simpl.
  field.
Qed.

Lemma third_point_not_collinear (a b : point) :
  a <> b -> ~ collinear a b (calculate_third_equilateral_point a b).
Proof.
  intros Hab Hc. unfold collinear in Hc. rewrite third_point_area in Hc.
  pose proof sqrt3_bounds as Hb.
  assert (Hd : dist2 a b = 0) by nra.
  destruct a as [ax ay], b as [bx b_y]. unfold dist2 in Hd; simpl in Hd.
  pose proof (Rle_0_sqr (ax - bx)) as H1.
  pose proof (Rle_0_sqr (ay - b_y)) as H2.
  unfold Rsqr in H1, H2.
  assert (Ex : (ax - bx) * (ax - bx) = 0) by lra.
  assert (Ey : (ay - b_y) * (ay - b_y) = 0) by lra.
  apply Rmult_integral in Ex. apply Rmult_integral in Ey.
  apply Hab. f_equal; [destruct Ex | destruct Ey]; lra.
Qed.

Lemma sample_face_eligible : eligible Sample.cv Sample.face.
Proof.
  split; [reflexivity |].
  unfold pupil_estimate, Sample.face, Sample.cv, Sample.estimate; simpl.
  destruct (Req_dec_T _ 0) as [E | _]; [| discriminate].
  exfalso. revert E. apply third_point_not_collinear.
  intros E. injection E as E. lra.
Qed.

(** C2.  On the 600 x 800 canvas of [main] the pupil positions are
    (600 * 0.35, 800 * 0.4) and (600 * (1 - 0.35), 800 * 0.4); for every
    photo of the batch the first loop asks for the rigid transform from
    slots 0 and 3 to these positions and leaves that transform applied to
    all five landmarks of the photo, one transformed set per photo: under
    the matrix [T] the landmark [(x, y)] becomes
    [(m00 * x + m01 * y + m02, m10 * x + m11 * y + m12)]. *)
Theorem pass1_estimates_and_transforms (cv : CV2)
  (photos : list (list point)) :
  Forall (eligible cv) photos ->
  pupil_points = [(600 * 0.35, 800 * 0.4); (600 * (1 - 0.35), 800 * 0.4)]
  /\ exists firsts,
      pass1 cv photos = Returned firsts /\
      length firsts = length photos /\
      forall i pts, nth_error photos i = Some pts ->
        exists p0 p3 T,
          nth_error pts 0 = Some p0 /\ nth_error pts 3 = Some p3 /\
          estimateRigidTransform cv
            [p0; p3; calculate_third_equilateral_point p0 p3]
            [left_target; right_target;
             calculate_third_equilateral_point left_target right_target]
            false = Some T /\
          nth_error firsts i =
            Some (Some T,
                  map (fun p =>
                         (m00 T * fst p + m01 T * snd p + m02 T,
                          m10 T * fst p + m11 T * snd p + m12 T)) pts) /\
          length (snd (nth i firsts (None, []))) = 5%nat.
Proof.
  intros H. split; [exact pupil_points_targets |].
  exists (map (pass1_result cv) photos).
  split; [now apply pass1_eligible |].
  split; [apply length_map |].
  intros i pts Hi.
  assert (He : eligible cv pts).
  { rewrite Forall_forall in H. apply H. eapply nth_error_In; eassumption. }
  destruct (pass1_result_eligible cv pts He) as [T [HT HR]].
  assert (Hmap : map (transform_point T) pts
                 = map (fun p =>
                          (m00 T * fst p + m01 T * snd p + m02 T,
                           m10 T * fst p + m11 T * snd p + m12 T)) pts).
  { apply map_ext. intros p. unfold transform_point, dot.
    now rewrite !Rmult_1_r. }
  assert (Hnth : nth_error (map (pass1_result cv) photos) i
                 = Some (pass1_result cv pts)).
  { now rewrite nth_error_map, Hi. }
  destruct He as [Hlen _].
  destruct pts as [| p0 [| p1 [| p2 [| p3 [| p4 [| p5 rest]]]]]];
    try discriminate Hlen.
  exists p0, p3, T.
  split; [reflexivity |]. split; [reflexivity |].
  split; [exact HT |].
  split.
  - rewrite Hnth, HR, Hmap. reflexivity.
  - rewrite (nth_error_nth _ _ _ Hnth), HR. reflexivity.
Qed.

Lemma pass1_estimates_and_transforms_witness :
  exists firsts,
    pass1 Sample.cv [Sample.face] = Returned firsts /\ length firsts = 1%nat.
Proof.
  destruct (pass1_estimates_and_transforms Sample.cv [Sample.face])
    as [_ [firsts [H1 [H2 _]]]].
  - constructor; [exact sample_face_eligible | constructor].
  - exists firsts. split; [exact H1 | exact H2].
Defined.

(* ================================================================== *)
(** * Averaging *)
(* ================================================================== *)


Lemma row_add_length (r1 r2 : list point) :
  length r2 = length r1 -> length (row_add r1 r2) = length r1.
Proof.
  intros H. unfold row_add. rewrite length_map, length_combine, H.
  apply Nat.min_id.
Qed.

Lemma row_add_nth (r1 r2 : list point) (j : nat) (d : point) :
  length r2 = length r1 -> (j < length r1)%nat ->
  nth j (row_add r1 r2) d = padd (nth j r1 d) (nth j r2 d).
Proof.
  revert r2 j. induction r1 as [| p r1 IH]; intros [| q r2] j Hl Hj;
    simpl in *; try lia.
  destruct j as [| j]; [reflexivity |].
  apply IH; lia.
Qed.

Lemma rows_sum_length (rs : list (list point)) (r : list point) :
  Forall (fun r' => length r' = length r) rs ->
  length (fold_left row_add rs r) = length r.
Proof.
  revert r. induction rs as [| r' rs IH]; intros r H; simpl.
  - reflexivity.
  - inversion H as [| ? ? Hr' Hrs]; subst.
    rewrite IH.
    + now apply row_add_length.
    + rewrite row_add_length by assumption. exact Hrs.
Qed.

Lemma rows_sum_nth (rs : list (list point)) (r : list point) (j : nat)
  (d : point) :
  Forall (fun r' => length r' = length r) rs -> (j < length r)%nat ->
  nth j (fold_left row_add rs r) d
  = fold_left padd (map (fun r' => nth j r' d) rs) (nth j r d).
Proof.
  revert r. induction rs as [| r' rs IH]; intros r H Hj; simpl.
  - reflexivity.
  - inversion H as [| ? ? Hr' Hrs]; subst.
    rewrite IH.
    + now rewrite row_add_nth.
    + rewrite row_add_length by assumption. exact Hrs.
    + now rewrite row_add_length.
Qed.

Lemma points_sum (ps : list point) (p : point) :
  fold_left padd ps p
  = (fst p + Rsum (map fst ps), snd p + Rsum (map snd ps)).
Proof.
  revert p. induction ps as [| q ps IH]; intros [x y]; simpl.
  - f_equal; lra.
  - rewrite IH. simpl. f_equal; lra.
Qed.

Lemma np_array_same_length (rows : list (list point)) (L : nat) :
  Forall (fun r => length r = L) rows -> np_array rows = Returned rows.
Proof.
  intros H. destruct rows as [| r rs]; [reflexivity |].
  inversion H as [| ? ? Hr Hrs]; subst. simpl.
  replace (forallb _ rs) with true; [reflexivity |].
  symmetry. apply forallb_forall. intros r' Hin.
  rewrite Forall_forall in Hrs. apply Nat.eqb_eq. now apply Hrs.
Qed.

Lemma np_array_Returned (rows arr : list (list point)) :
  np_array rows = Returned arr ->
  arr = rows /\
  forall r r', In r rows -> In r' rows -> length r = length r'.
Proof.
  destruct rows as [| r0 rs]; simpl.
  - intros E. injection E as <-. split; [reflexivity | intros ? ? []].
  - destruct (forallb _ rs) eqn:Hf; intros E; [| discriminate].
    injection E as <-. split; [reflexivity |].
    rewrite forallb_forall in Hf.
    assert (H0 : forall r, In r (r0 :: rs) -> length r = length r0).
    { intros r [<- | Hin]; [reflexivity |]. now apply Nat.eqb_eq, Hf. }
    intros r r' Hr Hr'. now rewrite (H0 r), (H0 r').
Qed.

Lemma np_array_Raised (rows : list (list point)) (e : exn) :
  np_array rows = Raised e -> e = "ValueError"%string.
Proof.
  destruct rows as [| r0 rs]; simpl; [discriminate |].
  destruct (forallb _ rs); intros E; [discriminate | now injection E].
Qed.

Lemma np_average_length (rows : list (list point)) (L : nat) :
  rows <> [] -> Forall (fun r => length r = L) rows ->
  length (np_average rows) = L.
Proof.
  intros Hne H. destruct rows as [| r rs]; [contradiction |].
  inversion H as [| ? ? Hr Hrs]; subst.
  unfold np_average. rewrite length_map. apply rows_sum_length.
  eapply Forall_impl; [| exact Hrs]. now intros.
Qed.

Lemma np_average_nth (rows : list (list point)) (L j : nat) :
  rows <> [] -> Forall (fun r => length r = L) rows -> (j < L)%nat ->
  nth j (np_average rows) (0, 0)
  = (Rsum (map (fun r => fst (nth j r (0, 0))) rows) / INR (length rows),
     Rsum (map (fun r => snd (nth j r (0, 0))) rows) / INR (length rows)).
Proof.
  intros Hne H Hj. destruct rows as [| r rs]; [contradiction |].
  inversion H as [| ? ? Hr Hrs]; subst.
  assert (Hrs' : Forall (fun r' => length r' = length r) rs).
  { eapply Forall_impl; [| exact Hrs]. now intros. }
  unfold np_average.
  rewrite (nth_indep _ (0, 0) (pdiv (0, 0) (length (r :: rs))))
    by (rewrite length_map, rows_sum_length; assumption).
  rewrite (map_nth (fun p => pdiv p (length (r :: rs)))).
  rewrite rows_sum_nth by assumption.
  rewrite points_sum, !map_map. unfold pdiv. simpl fst. simpl snd.
  reflexivity.
Qed.







(** [float32 x] for a given [x], from its exponent [e] and the integer [k]
    nearest to [x / 2 ** (e - 23)]. *)
Ltac float32_at e k :=
  rewrite (float32_round_to _ e k);
  [ unfold pow2; simpl; lra
  | lia
  | unfold pow2; simpl; rewrite Rabs_pos_eq; lra
  | unfold pow2; simpl; lra ].



(** In float32 arithmetic too the mean of one converted row is that row:
    its one term, divided by the count 1 and rounded, is itself. *)
Lemma float32_mean_of_one (x : R) :
  float32 (float32 x / float32 (INR 1)) = float32 x.
Proof.
  assert (H1 : float32 1 = 1) by float32_at 0%Z 8388608%Z.
  cbn [INR]. rewrite H1. unfold Rdiv. rewrite Rinv_1, Rmult_1_r.
  apply float32_idempotent.
Qed.











(* ================================================================== *)
(** * The last loop *)
(* ================================================================== *)

Section LastLoop.

Context (cv : CV2).

Lemma last_loop_from (image_count : nat) (its : list (image * mat23 * nat))
  (w0 : list (nat * image)) (a0 : image) :
  fold_left
    (fun (st : list (nat * image) * image) (it : image * mat23 * nat) =>
       let '(written, average_image) := st in
       let '(image, transform3, n) := it in
       let new_image :=
         warpAffine cv image transform3 (output_width, output_height) in
       (written ++ [(n, new_image)],
        img_add average_image (img_div new_image image_count)))
    its (w0, a0)
  = (w0 ++ map (fun it : image * mat23 * nat => (snd it, warped cv it)) its,
     fold_left
       (fun a (it : image * mat23 * nat) =>
          img_add a (img_div (warped cv it) image_count))
       its a0).
Proof.
  revert w0 a0. induction its as [| [[im T] n] its IH]; intros w0 a0; simpl.
  - now rewrite app_nil_r.
  - rewrite IH. f_equal. rewrite <- app_assoc. reflexivity.
Qed.

Lemma composite_turns (all_images : list image) (ts : list mat23) :
  composite cv all_images ts
  = (map (fun it : image * mat23 * nat => (snd it, warped cv it))
       (turns all_images ts),
     fold_left
       (fun a (it : image * mat23 * nat) =>
          img_add a (img_div (warped cv it) (length all_images)))
       (turns all_images ts) np_zeros).
Proof.
  unfold composite. fold (turns all_images ts).
  now rewrite last_loop_from.
Qed.

Lemma average_pixel (n : nat) (its : list (image * mat23 * nat))
  (a0 : image) (r c k : nat) :
  fold_left
    (fun a (it : image * mat23 * nat) => img_add a (img_div (warped cv it) n))
    its a0 r c k
  = a0 r c k + Rsum (map (fun it => warped cv it r c k / INR n) its).
Proof.
  revert a0. induction its as [| it its IH]; intros a0; simpl.
  - lra.
  - rewrite IH. unfold img_add, img_div. lra.
Qed.


Lemma turns_length_eq (all_images : list image) (ts : list mat23) :
  length ts = length all_images ->
  length (turns all_images ts) = length all_images.
Proof.
  intros H. unfold turns. rewrite !length_combine, length_seq, H. lia.
Qed.

Lemma turns_In (all_images : list image) (ts : list mat23)
  (it : image * mat23 * nat) :
  In it (turns all_images ts) ->
  In (fst (fst it)) all_images /\ In (snd (fst it)) ts.
Proof.
  destruct it as [[im T] n]. unfold turns. intros H.
  apply in_combine_l in H. simpl.
  split; [eapply in_combine_l | eapply in_combine_r]; eassumption.
Qed.

End LastLoop.

Lemma nth_error_combine {A B} (l1 : list A) (l2 : list B) (i : nat)
  (a : A) (b : B) :
  nth_error l1 i = Some a -> nth_error l2 i = Some b ->
  nth_error (combine l1 l2) i = Some (a, b).
Proof.
  revert l2 i. induction l1 as [| x l1 IH]; intros [| y l2] [| i] H1 H2;
    simpl in *; try discriminate.
  - now injection H1 as ->; injection H2 as ->.
  - now apply IH.
Qed.

Lemma Rsum_repeat (x : R) (n : nat) : Rsum (repeat x n) = INR n * x.
Proof.
  induction n as [| n IH].
  - simpl. lra.
  - change (Rsum (repeat x (S n))) with (x + Rsum (repeat x n)).
    rewrite IH, S_INR. lra.
Qed.


Lemma map_constant {A B} (f : A -> B) (c : B) (l : list A) :
  (forall x, In x l -> f x = c) -> map f l = repeat c (length l).
Proof.
  induction l as [| x l IH]; intros H; simpl.
  - reflexivity.
  - rewrite (H x) by now left. f_equal. apply IH. intros; apply H; now right.
Qed.

(* ================================================================== *)
(** * The passes of the pipeline *)
(* ================================================================== *)

Ltac getitem_or_raise :=
  match goal with
  | |- context [getitem ?xs ?i] =>
      let E := fresh "E" in
      let H := fresh "H" in
      destruct (getitem xs i) eqn:E; cbn [Py.bind];
      [| intros H; injection H as <-; apply getitem_Raised in E;
         destruct E as [-> ?] ]
  end.

Section Passes.

Context (cv : CV2).

Lemma calculate_transform_returns (s t : list point) :
  exists r, calculate_transform cv s t = Returned r.
Proof. unfold calculate_transform. eexists; reflexivity. Qed.

Lemma pass1_photo_Raised (pp pts : list point) (e : exn) :
  pass1_photo cv pp pts = Raised e ->
  e = "IndexError"%string \/ e = "AttributeError"%string.
Proof.
  unfold pass1_photo.
  getitem_or_raise; [| now left].
  getitem_or_raise; [| now left].
  destruct (calculate_transform_returns [a; a0] pp) as [t ->].
  cbn [Py.bind].
  match goal with
  | |- context [for_each ?f pts] =>
      destruct (for_each f pts) as [tp | e'] eqn:Hdot; cbn [Py.bind];
      [discriminate |]
  end.
  intros H; injection H as <-.
  apply for_each_Raised in Hdot as [p [_ Hp]].
  destruct t; simpl in Hp; [discriminate |].
  injection Hp as <-. now right.
Qed.

Lemma pass2_photo_total (avg tp : list point) (t : option mat23) :
  (5 <= length tp)%nat -> (5 <= length avg)%nat ->
  exists t2, pass2_photo cv avg (tp, t) = Returned t2.
Proof.
  intros Htp Havg. unfold pass2_photo.
  rewrite !(getitem_nth tp _ (0, 0)) by lia.
  rewrite !(getitem_nth avg _ (0, 0)) by lia.
  cbn [Py.bind]. apply calculate_transform_returns.
Qed.

Lemma pass2_photo_Raised (avg : list point)
  (it : list point * option mat23) (e : exn) :
  pass2_photo cv avg it = Raised e ->
  e = "IndexError"%string /\
  ((length (fst it) < 5)%nat \/ (length avg < 5)%nat).
Proof.
  destruct it as [tp t]. unfold pass2_photo. simpl fst.
  do 3 (getitem_or_raise; [| split; [reflexivity | left; lia]]).
  do 3 (getitem_or_raise; [| split; [reflexivity | right; lia]]).
  destruct (calculate_transform_returns [a; a0; a1] [a2; a3; a4]) as [r ->].
  discriminate.
Qed.

Lemma pass3_photo_triangle (dest pts : list point) :
  (5 <= length pts)%nat ->
  pass3_photo cv dest pts
  = Returned (getAffineTransform cv (triangle pts) dest).
Proof.
  intros H. unfold pass3_photo.
  rewrite !(getitem_nth pts _ (0, 0)) by lia. reflexivity.
Qed.

Lemma pass3_photo_Raised (dest pts : list point) (e : exn) :
  pass3_photo cv dest pts = Raised e -> e = "IndexError"%string.
Proof.
  unfold pass3_photo.
  do 3 (getitem_or_raise; [| reflexivity]).
  discriminate.
Qed.

Lemma averaged_landmarks_Raised (rows : list (list point)) (e : exn) :
  averaged_landmarks rows = Raised e -> e = "ValueError"%string.
Proof.
  unfold averaged_landmarks.
  destruct (np_array rows) as [arr | e'] eqn:H; cbn [Py.bind];
    [discriminate |].
  intros E; injection E as <-. eapply np_array_Raised; eassumption.
Qed.

Lemma averaged_landmarks_length (rows : list (list point))
  (avg r : list point) :
  averaged_landmarks rows = Returned avg -> In r rows ->
  length avg = length r.
Proof.
  unfold averaged_landmarks.
  destruct (np_array rows) as [arr | e'] eqn:H; cbn [Py.bind];
    [| discriminate].
  intros E Hin; injection E as <-.
  apply np_array_Returned in H as [-> Hsame].
  destruct rows as [| r0 rs]; [contradiction |].
  unfold np_average. rewrite length_map, rows_sum_length.
  - apply Hsame; [now left | assumption].
  - apply Forall_forall. intros r' Hr'. apply Hsame; [now right | now left].
Qed.

Lemma destination_short {X} (avg : list point)
  (K : point -> point -> point -> outcome X) :
  (length avg < 5)%nat ->
  (d0 <- getitem avg 0 ;; d3 <- getitem avg 3 ;; d4 <- getitem avg 4 ;;
   K d0 d3 d4) = Raised "IndexError"%string.
Proof.
  intros H. rewrite (getitem_short avg 4) by lia.
  destruct (getitem avg 0) eqn:E0; cbn [Py.bind].
  - destruct (getitem avg 3) eqn:E3; cbn [Py.bind]; [reflexivity |].
    now apply getitem_Raised in E3 as [-> _].
  - now apply getitem_Raised in E0 as [-> _].
Qed.

Lemma destination_long {X} (avg : list point)
  (K : point -> point -> point -> outcome X) :
  (5 <= length avg)%nat ->
  (d0 <- getitem avg 0 ;; d3 <- getitem avg 3 ;; d4 <- getitem avg 4 ;;
   K d0 d3 d4)
  = K (nth 0 avg (0, 0)) (nth 3 avg (0, 0)) (nth 4 avg (0, 0)).
Proof.
  intros H. rewrite !(getitem_nth avg _ (0, 0)) by lia. reflexivity.
Qed.

Lemma destination_Raised {X} (avg : list point)
  (K : point -> point -> point -> outcome X) (e : exn) :
  (d0 <- getitem avg 0 ;; d3 <- getitem avg 3 ;; d4 <- getitem avg 4 ;;
   K d0 d3 d4) = Raised e ->
  e = "IndexError"%string \/
  exists d0 d3 d4, K d0 d3 d4 = Raised e.
Proof.
  do 3 (getitem_or_raise; [| now left]).
  intros H. right. now exists a, a0, a1.
Qed.

(** The run of [align] on a batch of eligible photos. *)
Lemma align_eligible (all_images : list image) (photos : list (list point)) :
  photos <> [] -> Forall (eligible cv) photos ->
  align cv all_images photos
  = Returned
      (Build_output
         (map (final_transform cv (batch_average cv photos)) photos)
         (fst (composite cv all_images
                 (map (final_transform cv (batch_average cv photos)) photos)))
         (snd (composite cv all_images
                 (map (final_transform cv (batch_average cv photos)) photos)))).
Proof.
  intros Hne H. unfold align.
  rewrite (pass1_eligible cv photos H). cbn [Py.bind].
  assert (Hrows : Forall (fun r => length r = 5%nat)
                    (map snd (map (pass1_result cv) photos))).
  { apply Forall_forall. intros r Hr.
    rewrite map_map in Hr. apply in_map_iff in Hr as [pts [<- Hin]].
    rewrite pass1_result_length. rewrite Forall_forall in H.
    now destruct (H pts Hin). }
  assert (Havg : averaged_landmarks (map snd (map (pass1_result cv) photos))
                 = Returned (batch_average cv photos)).
  { unfold averaged_landmarks, batch_average.
    rewrite (np_array_same_length _ 5%nat Hrows). cbn [Py.bind].
    now rewrite map_map. }
  rewrite Havg. cbn [Py.bind].
  assert (Hlen : length (batch_average cv photos) = 5%nat).
  { unfold batch_average. rewrite <- map_map.
    apply np_average_length; [| exact Hrows].
    destruct photos; [contradiction | discriminate]. }
  destruct (for_each_total (pass2_photo cv (batch_average cv photos))
              (combine (map snd (map (pass1_result cv) photos))
                 (map fst (map (pass1_result cv) photos))))
    as [ys ->].
  { intros [tp t] Hin. apply pass2_photo_total; [| lia].
    apply in_combine_l in Hin. rewrite Forall_forall in Hrows.
    rewrite (Hrows tp Hin). lia. }
  cbn [Py.bind].
  rewrite destination_long by lia.
  rewrite (for_each_map _ (final_transform cv (batch_average cv photos))).
  - cbn [Py.bind]. now destruct (composite cv all_images _).
  - intros pts Hin. rewrite Forall_forall in H. destruct (H pts Hin) as [L _].
    rewrite pass3_photo_triangle by lia. reflexivity.
Qed.


(** The exceptions [align] can raise. *)
Lemma align_Raised (all_images : list image) (photos : list (list point))
  (e : exn) :
  align cv all_images photos = Raised e ->
  e = "IndexError"%string \/ e = "AttributeError"%string \/
  e = "ValueError"%string.
Proof.
  unfold align.
  destruct (pass1 cv photos) as [firsts | e1] eqn:H1; cbn [Py.bind].
  2:{ intros E; injection E as <-.
      apply for_each_Raised in H1 as [pts [_ Hp]].
      apply pass1_photo_Raised in Hp as [-> | ->]; auto. }
  destruct (averaged_landmarks _) as [avg | e2] eqn:Ha; cbn [Py.bind].
  2:{ intros E; injection E as <-.
      apply averaged_landmarks_Raised in Ha as ->. auto. }
  destruct (for_each (pass2_photo cv avg) _) as [t2 | e3] eqn:H2;
    cbn [Py.bind].
  2:{ intros E; injection E as <-.
      apply for_each_Raised in H2 as [it [_ Hp]].
      apply pass2_photo_Raised in Hp as [-> _]. auto. }
  intros E. apply destination_Raised in E as [-> | [d0 [d3 [d4 E]]]]; auto.
  destruct (for_each (pass3_photo cv _) photos) as [ts | e4] eqn:H3;
    cbn [Py.bind] in E.
  - now destruct (composite cv all_images ts).
  - injection E as <-.
    apply for_each_Raised in H3 as [pts [_ Hp]].
    apply pass3_photo_Raised in Hp as ->. auto.
Qed.

End Passes.

(* ================================================================== *)
(** * The sample OpenCV *)
(* ================================================================== *)


Lemma sample_batch_eligible (N : nat) :
  Forall (eligible Sample.cv) (repeat Sample.face N).
Proof.
  apply Forall_forall. intros pts Hin.
  apply repeat_spec in Hin as ->. exact sample_face_eligible.
Qed.

(* ================================================================== *)
(** * Degenerate triangles and empty batches *)
(* ================================================================== *)

(** C1, as the code has it.  Nothing checks for collinear points and no
    [DegenerateGeometryError] exists: [calculate_transform] returns what
    [cv2.estimateRigidTransform] returns on the points it is given (a pair
    completed to a triangle first), [None] included; the third loop keeps
    what [cv2.getAffineTransform] returns; and no run of the pipeline
    raises [DegenerateGeometryError]. *)
Theorem estimation_never_raises_degenerate (cv : CV2) :
  (forall a b c a' b' c' : point,
      calculate_transform cv [a; b; c] [a'; b'; c']
      = Returned (estimateRigidTransform cv [a; b; c] [a'; b'; c'] false))
  /\ (forall a b a' b' : point,
      calculate_transform cv [a; b] [a'; b']
      = Returned
          (estimateRigidTransform cv
             [a; b; calculate_third_equilateral_point a b]
             [a'; b'; calculate_third_equilateral_point a' b'] false))
  /\ (forall (dest : list point) (p0 p1 p2 p3 p4 : point),
      pass3_photo cv dest [p0; p1; p2; p3; p4]
      = Returned (getAffineTransform cv [p0; p3; p4] dest))
  /\ (forall (all_images : list image) (photos : list (list point)),
      align cv all_images photos
      <> Raised "DegenerateGeometryError"%string).
Proof.
  repeat split.
  intros all_images photos H.
  apply align_Raised in H as [H | [H | H]]; discriminate H.
Qed.

(** C1 fails on the code: on three collinear points the estimate is a
    returned [None], and the third loop returns a matrix for a photo whose
    pupils and mouth are collinear. *)
Lemma collinear_estimate_returns :
  collinear (0, 0) (1, 1) (2, 2)
  /\ calculate_transform Sample.cv [(0, 0); (1, 1); (2, 2)]
       [(0, 0); (1, 0); (0, 1)] = Returned None
  /\ calculate_transform Sample.cv [(0, 0); (1, 1); (2, 2)]
       [(0, 0); (1, 0); (0, 1)] <> Raised "DegenerateGeometryError"%string
  /\ exists T,
      pass3_photo Sample.cv [(0, 0); (1, 0); (0, 1)]
        [(0, 0); (3, 0); (4, 0); (1, 1); (2, 2)] = Returned T.
Proof.
  assert (Hc : area2 (0, 0) (1, 1) (2, 2) = 0).
  { unfold area2; simpl; lra. }
  assert (Hn : calculate_transform Sample.cv [(0, 0); (1, 1); (2, 2)]
                 [(0, 0); (1, 0); (0, 1)] = Returned None).
  { unfold calculate_transform; simpl. unfold Sample.estimate.
    destruct (Req_dec_T _ 0) as [_ | Hne]; [reflexivity | contradiction]. }
  split; [exact Hc |].
  split; [exact Hn |].
  split; [rewrite Hn; discriminate |].
  eexists. reflexivity.
Qed.

(** C5, as the code has it.  On a batch of no photos nothing raises
    [EmptyBatchError]: the first loop runs over nothing and estimates no
    transform, the landmarks of the empty batch are averaged all the same,
    and the run stops with an [IndexError] when slot 0 of that average is
    read, before any image is warped or written. *)
Theorem empty_batch_raises_IndexError (cv : CV2) (all_images : list image) :
  pass1 cv [] = Returned []
  /\ averaged_landmarks [] = Returned []
  /\ align cv all_images [] = Raised "IndexError"%string
  /\ main cv [] = Raised "IndexError"%string.
Proof.
  assert (Ha : align cv all_images [] = Raised "IndexError"%string).
  { unfold align, pass1. cbn [for_each Py.bind map].
    apply destination_short. simpl. lia. }
  repeat split; first [exact Ha | reflexivity].
Qed.

(** C5 fails on the code: the empty batch ends in an [IndexError], and not
    in [EmptyBatchError]. *)
Lemma empty_batch_not_EmptyBatchError :
  align Sample.cv [] [] = Raised "IndexError"%string
  /\ align Sample.cv [] [] <> Raised "EmptyBatchError"%string.
Proof.
  assert (Ha : align Sample.cv [] [] = Raised "IndexError"%string)
    by reflexivity.
  split; [exact Ha | rewrite Ha; discriminate].
Qed.

(* ================================================================== *)
(** * The exact affine solve *)
(* ================================================================== *)

Lemma affine_solve_exact (s0 s1 s2 t0 t1 t2 : point) :
  ~ collinear s0 s1 s2 ->
  transform_point (affine_solve [s0; s1; s2] [t0; t1; t2]) s0 = t0 /\
  transform_point (affine_solve [s0; s1; s2] [t0; t1; t2]) s1 = t1 /\
  transform_point (affine_solve [s0; s1; s2] [t0; t1; t2]) s2 = t2.
Proof.
  destruct s0 as [x0 y0], s1 as [x1 y1], s2 as [x2 y2].
  destruct t0 as [u0 v0], t1 as [u1 v1], t2 as [u2 v2].
  unfold collinear, area2; simpl. intros HD.
  unfold transform_point, dot; simpl.
  repeat split; f_equal; field; exact HD.
Qed.

Lemma point_error_same (p : point) (eps : R) :
  0 < eps -> point_error p p < eps.
Proof.
  intros H. unfold point_error.
  rewrite !Rminus_diag, Rabs_R0. now apply Rmax_lub_lt.
Qed.

(** C7.  On three source points that are not collinear the exact affine
    solve gives a 2x3 matrix that takes each source point, made
    homogeneous, to its target: the error is below every positive
    epsilon. *)
Theorem affine_solve_maps_sources (s0 s1 s2 t0 t1 t2 : point) (eps : R) :
  ~ collinear s0 s1 s2 -> 0 < eps ->
  point_error
    (dot (affine_solve [s0; s1; s2] [t0; t1; t2]) (fst s0, snd s0, 1)) t0
    < eps /\
  point_error
    (dot (affine_solve [s0; s1; s2] [t0; t1; t2]) (fst s1, snd s1, 1)) t1
    < eps /\
  point_error
    (dot (affine_solve [s0; s1; s2] [t0; t1; t2]) (fst s2, snd s2, 1)) t2
    < eps.
Proof.
  intros Hnc Heps.
  destruct (affine_solve_exact s0 s1 s2 t0 t1 t2 Hnc) as [E0 [E1 E2]].
  unfold transform_point in E0, E1, E2. rewrite E0, E1, E2.
  repeat split; now apply point_error_same.
Qed.

Lemma affine_solve_maps_sources_witness :
  point_error
    (dot (affine_solve [(0, 0); (1, 0); (0, 1)] [(1, 1); (3, 1); (1, 4)])
       (0, 0, 1)) (1, 1) < 1 / 1000000.
Proof.
  apply (affine_solve_maps_sources (0, 0) (1, 0) (0, 1) (1, 1) (3, 1) (1, 4)
           (1 / 1000000)).
  - unfold collinear, area2; simpl; lra.
  - lra.
Defined.

(* ================================================================== *)
(** * The final transforms and the images *)
(* ================================================================== *)

Section Finals.

Context (cv : CV2).

Lemma transformed_rows_length (photos : list (list point)) :
  Forall (eligible cv) photos ->
  Forall (fun r => length r = 5%nat)
    (map snd (map (pass1_result cv) photos)).
Proof.
  intros H. apply Forall_forall. intros r Hr.
  rewrite map_map in Hr. apply in_map_iff in Hr as [pts [<- Hin]].
  rewrite pass1_result_length. rewrite Forall_forall in H.
  now destruct (H pts Hin).
Qed.

Lemma averaged_landmarks_eligible (photos : list (list point)) :
  Forall (eligible cv) photos ->
  averaged_landmarks (map snd (map (pass1_result cv) photos))
  = Returned (batch_average cv photos).
Proof.
  intros H. unfold averaged_landmarks, batch_average.
  rewrite (np_array_same_length _ 5%nat (transformed_rows_length photos H)).
  cbn [Py.bind]. now rewrite map_map.
Qed.

Lemma new_images_nth (all_images : list image) (ts : list mat23)
  (i : nat) (im : image) (T : mat23) :
  nth_error all_images i = Some im -> nth_error ts i = Some T ->
  nth_error (fst (composite cv all_images ts)) i
  = Some (i, warpAffine cv im T (600, 800)%Z).
Proof.
  intros Him HT. rewrite composite_turns. simpl fst.
  apply (map_nth_error
           (fun it : image * mat23 * nat => (snd it, warped cv it))
           i (turns all_images ts) (d := (im, T, i))).
  unfold turns. apply nth_error_combine.
  - now apply nth_error_combine.
  - rewrite nth_error_seq.
    assert (Hi : (i < length all_images)%nat).
    { apply nth_error_Some. now rewrite Him. }
    apply Nat.ltb_lt in Hi. now rewrite Hi.
Qed.

End Finals.

(** C3.  For every photo of an eligible batch the final transform is the
    affine solve from slots 0, 3 and 4 of the photo's own, untransformed
    landmarks to slots 0, 3 and 4 of the averaged landmarks; the image
    written for the photo is its original image warped once, by that
    transform, onto the 600 x 800 canvas. *)
Theorem final_transform_from_original_landmarks (cv : CV2)
  (all_images : list image) (photos : list (list point)) :
  photos <> [] -> Forall (eligible cv) photos ->
  length all_images = length photos ->
  exists out firsts avg,
    align cv all_images photos = Returned out /\
    pass1 cv photos = Returned firsts /\
    averaged_landmarks (map snd firsts) = Returned avg /\
    length (all_transforms3 out) = length photos /\
    length (new_images out) = length photos /\
    forall i im pts,
      nth_error all_images i = Some im -> nth_error photos i = Some pts ->
      nth_error (all_transforms3 out) i =
        Some (getAffineTransform cv
                [nth 0 pts (0, 0); nth 3 pts (0, 0); nth 4 pts (0, 0)]
                [nth 0 avg (0, 0); nth 3 avg (0, 0); nth 4 avg (0, 0)]) /\
      nth_error (new_images out) i =
        Some (i, warpAffine cv im
                   (getAffineTransform cv
                      [nth 0 pts (0, 0); nth 3 pts (0, 0); nth 4 pts (0, 0)]
                      [nth 0 avg (0, 0); nth 3 avg (0, 0); nth 4 avg (0, 0)])
                   (600, 800)%Z).
Proof.
  intros Hne H Hlen.
  set (avg := batch_average cv photos).
  set (ts := map (final_transform cv avg) photos).
  exists (Build_output ts (fst (composite cv all_images ts))
            (snd (composite cv all_images ts))),
    (map (pass1_result cv) photos), avg.
  split; [now apply align_eligible |].
  split; [now apply pass1_eligible |].
  split; [now apply averaged_landmarks_eligible |].
  assert (Hts : length ts = length all_images).
  { unfold ts. now rewrite length_map. }
  cbn [all_transforms3 new_images].
  split; [unfold ts; apply length_map |].
  split.
  { rewrite composite_turns. simpl fst.
    rewrite length_map, turns_length_eq; assumption. }
  intros i im pts Him Hpts.
  assert (HT : nth_error ts i = Some (final_transform cv avg pts)).
  { unfold ts. now apply map_nth_error. }
  split; [exact HT |].
  now apply new_images_nth.
Qed.

Lemma final_transform_from_original_landmarks_witness :
  exists out,
    align Sample.cv [Sample.grey] [Sample.face] = Returned out /\
    length (all_transforms3 out) = 1%nat.
Proof.
  destruct (final_transform_from_original_landmarks Sample.cv
              [Sample.grey] [Sample.face])
    as [out [_ [_ [H1 [_ [_ [H2 _]]]]]]].
  - discriminate.
  - exact (sample_batch_eligible 1).
  - reflexivity.
  - exists out. split; [exact H1 | exact H2].
Defined.

(** C8.  For a batch of N copies of one photo, all N final transforms are
    one transform, all N written images are one image, and every sample of
    the average image is the sample of that image. *)
Theorem identical_photos_same_transform_and_average (cv : CV2) (N : nat)
  (im : image) (pts : list point) :
  (0 < N)%nat -> eligible cv pts ->
  exists out T w,
    align cv (repeat im N) (repeat pts N) = Returned out /\
    all_transforms3 out = repeat T N /\
    map snd (new_images out) = repeat w N /\
    forall r c k, average_image out r c k = w r c k.
Proof.
  intros HN He.
  assert (Hne : repeat pts N <> []) by (destruct N; [lia | discriminate]).
  assert (Hel : Forall (eligible cv) (repeat pts N)).
  { apply Forall_forall. intros p Hp. now apply repeat_spec in Hp as ->. }
  set (T := final_transform cv (batch_average cv (repeat pts N)) pts).
  set (w := warpAffine cv im T (output_width, output_height)).
  assert (Hw : forall it, In it (turns (repeat im N) (repeat T N)) ->
                          warped cv it = w).
  { intros it Hin. apply turns_In in Hin as [H1 H2].
    apply repeat_spec in H1, H2. unfold warped. now rewrite H1, H2. }
  assert (HL : length (turns (repeat im N) (repeat T N)) = N).
  { rewrite turns_length_eq; rewrite !repeat_length; reflexivity. }
  eexists. exists T, w.
  split; [apply (align_eligible cv _ _ Hne Hel) |].
  cbn [all_transforms3 new_images average_image].
  rewrite map_repeat. fold T.
  split; [reflexivity |].
  rewrite composite_turns. cbn [fst snd].
  split.
  - rewrite map_map. rewrite (map_constant _ w).
    + now rewrite HL.
    + intros it Hin. cbn [snd]. now apply Hw.
  - intros r c k. rewrite average_pixel. unfold np_zeros.
    rewrite (map_constant _ (w r c k / INR N)).
    + rewrite Rsum_repeat, HL. field.
      apply not_0_INR. lia.
    + intros it Hin. rewrite repeat_length. now rewrite (Hw it Hin).
Qed.

Lemma identical_photos_same_transform_and_average_witness :
  exists out T,
    align Sample.cv [Sample.grey; Sample.grey] [Sample.face; Sample.face]
    = Returned out /\ all_transforms3 out = [T; T].
Proof.
  destruct (identical_photos_same_transform_and_average Sample.cv 2
              Sample.grey Sample.face)
    as [out [T [w [H1 [H2 _]]]]].
  - lia.
  - exact sample_face_eligible.
  - exists out, T. split; [exact H1 | exact H2].
Defined.












(** C10.  The transforms of the second loop reach no output: on every
    batch, [align] and [align] without its second loop return the same
    final transforms, written images and average image, or raise the same
    exception. *)
Theorem second_loop_reaches_no_output (cv : CV2) (all_images : list image)
  (photos : list (list point)) :
  align cv all_images photos = align_without_pass2 cv all_images photos.
Proof.
  unfold align, align_without_pass2.
  destruct (pass1 cv photos) as [firsts | e]; cbn [Py.bind];
    [| reflexivity].
  destruct (averaged_landmarks (map snd firsts)) as [avg | e] eqn:Havg;
    cbn [Py.bind]; [| reflexivity].
  destruct (for_each (pass2_photo cv avg)
              (combine (map snd firsts) (map fst firsts)))
    as [t2 | e] eqn:H2; cbn [Py.bind]; [reflexivity |].
  apply for_each_Raised in H2 as [[tp t] [Hin Hr]].
  apply pass2_photo_Raised in Hr as [-> Hshort].
  symmetry. apply destination_short.
  destruct Hshort as [Htp | Ha]; [| exact Ha].
  apply in_combine_l in Hin.
  rewrite (averaged_landmarks_length _ _ _ Havg Hin). exact Htp.
Qed.

(* ================================================================== *)
(** * More on the third point *)
(* ================================================================== *)

Lemma dist2_zero (a b : point) : dist2 a b = 0 -> a = b.
Proof.
  destruct a as [ax ay], b as [bx b_y]. unfold dist2; simpl. intros Hd.
  pose proof (Rle_0_sqr (ax - bx)) as H1.
  pose proof (Rle_0_sqr (ay - b_y)) as H2.
  unfold Rsqr in H1, H2.
  assert (Ex : (ax - bx) * (ax - bx) = 0) by lra.
  assert (Ey : (ay - b_y) * (ay - b_y) = 0) by lra.
  apply Rmult_integral in Ex. apply Rmult_integral in Ey.
  f_equal; [destruct Ex | destruct Ey]; lra.
Qed.

Lemma dist2_same (a : point) : dist2 a a = 0.
Proof. unfold dist2. ring. Qed.

(** X1.  The point [calculate_third_equilateral_point a b] lies on the
    line through [a] and [b] exactly when [a = b] (it is then [a] itself);
    for distinct points the triangle [a], [b], third point always turns
    the same way (negative signed area). *)
Theorem third_point_collinear_iff_same (a b : point) :
  (collinear a b (calculate_third_equilateral_point a b) <-> a = b)
  /\ calculate_third_equilateral_point a a = a
  /\ area2 a b (calculate_third_equilateral_point a b) <= 0.
Proof.
  pose proof sqrt3_bounds as Hb.
  assert (Hpos : 0 <= dist2 a b).
  { unfold dist2.
    pose proof (Rle_0_sqr (fst a - fst b)) as H1.
    pose proof (Rle_0_sqr (snd a - snd b)) as H2.
    unfold Rsqr in H1, H2. lra. }
  repeat split.
  - intros Hc. unfold collinear in Hc. rewrite third_point_area in Hc.
    apply dist2_zero. nra.
  - intros <-. unfold collinear. rewrite third_point_area, dist2_same. ring.
  - rewrite third_point_formula. destruct a as [ax ay]; simpl.
    f_equal; ring.
  - rewrite third_point_area. nra.
Qed.

Lemma rotation_formula_similarity (p q tx ty c s : R) (a b : point) :
  let T := similarity p q tx ty in
  (c * (fst (transform_point T a) - fst (transform_point T b))
   - s * (snd (transform_point T a) - snd (transform_point T b))
   + fst (transform_point T b),
   s * (fst (transform_point T a) - fst (transform_point T b))
   + c * (snd (transform_point T a) - snd (transform_point T b))
   + snd (transform_point T b))
  = transform_point T
      (c * (fst a - fst b) - s * (snd a - snd b) + fst b,
       s * (fst a - fst b) + c * (snd a - snd b) + snd b).
Proof.
  destruct a as [ax ay], b as [bx b_y].
  unfold transform_point, similarity, dot; simpl.
  f_equal; ring.
Qed.

(** X2.  Over the reals (exact arithmetic, [cos (pi / 3) = 1 / 2] and
    [sin (pi / 3) = sqrt 3 / 2]) the third point goes along with every
    rotation, uniform scaling and translation: the third point of the
    images of [a] and [b] is the image of the third point of [a] and
    [b]. *)
Theorem third_point_similarity (p q tx ty : R) (a b : point) :
  calculate_third_equilateral_point
    (transform_point (similarity p q tx ty) a)
    (transform_point (similarity p q tx ty) b)
  = transform_point (similarity p q tx ty)
      (calculate_third_equilateral_point a b).
Proof.
  rewrite !third_point_formula.
  apply (rotation_formula_similarity p q tx ty (1 / 2) (sqrt 3 / 2)).
Qed.

(** X3.  Over the reals (exact arithmetic, [cos (pi / 3) = 1 / 2] and
    [sin (pi / 3) = sqrt 3 / 2]) swapping the two arguments gives the
    equilateral point on the other side of the segment: the two third
    points are mirror images in the midpoint of [a] and [b], and their
    triangles have opposite signed areas. *)
Theorem third_point_swap (a b : point) :
  padd (calculate_third_equilateral_point a b)
       (calculate_third_equilateral_point b a) = padd a b
  /\ area2 a b (calculate_third_equilateral_point b a)
     = - area2 a b (calculate_third_equilateral_point a b).
Proof.
  rewrite !third_point_formula.
  destruct a as [ax ay], b as [bx b_y].
  unfold padd, area2; simpl. split; [f_equal |]; field.
Qed.

(** X4.  Over the reals (exact arithmetic, [cos (pi / 3) = 1 / 2] and
    [sin (pi / 3) = sqrt 3 / 2]) taking the third point about the same
    centre three times in a row gives the reflection of [a] in [b]; six
    times give [a] back. *)
Theorem third_point_six_times (a b : point) :
  let turn := fun x => calculate_third_equilateral_point x b in
  turn (turn (turn a)) = (2 * fst b - fst a, 2 * snd b - snd a)
  /\ turn (turn (turn (turn (turn (turn a))))) = a.
Proof.
  intros turn.
  assert (H3 : forall x,
             turn (turn (turn x)) = (2 * fst b - fst x, 2 * snd b - snd x)).
  { intros [x y]. unfold turn. rewrite !third_point_formula.
    destruct b as [bx b_y]. simpl.
    pose proof sqrt3_sq as Hs. set (s := sqrt 3) in *.
    f_equal.
    - transitivity (2 * bx - x
                    + (s * s - 3) * ((bx - x) * 3 / 8 + s * (y - b_y) / 8)).
      + field.
      + rewrite Hs. ring.
    - transitivity (2 * b_y - y
                    + (s * s - 3) * ((b_y - y) * 3 / 8 - s * (x - bx) / 8)).
      + field.
      + rewrite Hs. ring. }
  split; [apply H3 |].
  rewrite H3, H3. destruct a as [ax ay]. simpl. f_equal; ring.
Qed.

(** X5.  Over the reals (exact arithmetic, [cos (pi / 3) = 1 / 2] and
    [sin (pi / 3) = sqrt 3 / 2]): for two distinct source points and any
    two target points there is a rotation with uniform scale and
    translation that takes the source pair onto the target pair and the
    third point of the sources onto the third point of the targets: the
    two triangles [calculate_transform] hands to the rigid estimator are
    matched exactly by such a map. *)
Theorem completed_triangles_are_similar (a b a' b' : point) :
  a <> b ->
  exists p q tx ty,
    transform_point (similarity p q tx ty) a = a' /\
    transform_point (similarity p q tx ty) b = b' /\
    transform_point (similarity p q tx ty)
      (calculate_third_equilateral_point a b)
    = calculate_third_equilateral_point a' b'.
Proof.
  intros Hab.
  assert (Hd : dist2 a b <> 0) by (intros H; now apply Hab, dist2_zero).
  set (dx := fst b - fst a). set (dy := snd b - snd a).
  set (ex := fst b' - fst a'). set (ey := snd b' - snd a').
  set (p := (ex * dx + ey * dy) / dist2 a b).
  set (q := (ey * dx - ex * dy) / dist2 a b).
  assert (Ha : transform_point
                 (similarity p q (fst a' - (p * fst a - q * snd a))
                    (snd a' - (q * fst a + p * snd a))) a = a').
  { destruct a as [ax ay], a' as [ax' ay'].
    unfold transform_point, similarity, dot; simpl. f_equal; ring. }
  assert (Hb : transform_point
                 (similarity p q (fst a' - (p * fst a - q * snd a))
                    (snd a' - (q * fst a + p * snd a))) b = b').
  { subst p q dx dy ex ey.
    destruct a as [ax ay], a' as [ax' ay'], b as [bx b_y], b' as [bx' b_y'].
    unfold dist2 in *; simpl in *.
    unfold transform_point, similarity, dot; simpl.
    f_equal; field; intros H; apply Hd; lra. }
  exists p, q, (fst a' - (p * fst a - q * snd a)),
    (snd a' - (q * fst a + p * snd a)).
  split; [exact Ha |]. split; [exact Hb |].
  rewrite (third_point_formula a b), (third_point_formula a' b').
  rewrite <- (rotation_formula_similarity p q _ _ (1 / 2) (sqrt 3 / 2) a b).
  cbv zeta. now rewrite Ha, Hb.
Qed.

Lemma completed_triangles_are_similar_witness :
  exists p q tx ty,
    transform_point (similarity p q tx ty) (2, 2) = (210, 320) /\
    transform_point (similarity p q tx ty) (6, 2) = (390, 320).
Proof.
  destruct (completed_triangles_are_similar (2, 2) (6, 2) (210, 320)
              (390, 320)) as [p [q [tx [ty [H1 [H2 _]]]]]].
  - intros E. injection E as E. lra.
  - exists p, q, tx, ty. split; [exact H1 | exact H2].
Defined.

(* ================================================================== *)
(** * More on the pupil positions and on loading *)
(* ================================================================== *)



(* ================================================================== *)
(** * How a run ends *)
(* ================================================================== *)

Section Outcomes.

Context (cv : CV2).

Lemma pass1_photo_long (pts : list point) :
  (4 <= length pts)%nat ->
  pass1_photo cv pupil_points pts
  = match pupil_estimate cv pts with
    | Some _ => Returned (pass1_result cv pts)
    | None => Raised "AttributeError"%string
    end.
Proof.
  intros Hlen. rewrite pupil_points_targets.
  destruct pts as [| p0 [| p1 [| p2 [| p3 rest]]]]; simpl in Hlen; try lia.
  unfold pass1_photo, getitem, calculate_transform, pass1_result.
  cbn [nth_error Py.bind app pupil_estimate].
  destruct (estimateRigidTransform cv _ _ false) as [T |].
  - now rewrite transform_dot_each.
  - reflexivity.
Qed.

Lemma pass1_all_estimated (photos : list (list point)) :
  Forall (fun p => (4 <= length p)%nat) photos ->
  Forall (fun p => pupil_estimate cv p <> None) photos ->
  pass1 cv photos = Returned (map (pass1_result cv) photos).
Proof.
  intros Hlen Hest. apply for_each_map. intros pts Hin.
  rewrite Forall_forall in Hlen, Hest.
  rewrite (pass1_photo_long pts (Hlen pts Hin)).
  specialize (Hest pts Hin). now destruct (pupil_estimate cv pts).
Qed.

Lemma pass1_no_estimate (photos : list (list point)) :
  Forall (fun p => (4 <= length p)%nat) photos ->
  Exists (no_estimate cv) photos ->
  pass1 cv photos = Raised "AttributeError"%string.
Proof.
  intros Hlen Hex. unfold pass1.
  induction photos as [| pts photos IH]; [inversion Hex |].
  inversion Hlen as [| ? ? Hp Hps]; subst.
  cbn [for_each]. rewrite (pass1_photo_long pts Hp).
  destruct (pupil_estimate cv pts) as [T |] eqn:HT; [| reflexivity].
  cbn [Py.bind]. rewrite IH; [reflexivity | exact Hps |].
  inversion Hex as [? ? Hn | ? ? Hn]; subst; [| exact Hn].
  unfold no_estimate in Hn. congruence.
Qed.

Lemma uniform_rows (photos : list (list point)) :
  uniform photos <-> uniform (map snd (map (pass1_result cv) photos)).
Proof.
  unfold uniform. rewrite map_map. split.
  - intros H r r' Hr Hr'.
    apply in_map_iff in Hr as [p [<- Hp]].
    apply in_map_iff in Hr' as [q [<- Hq]].
    rewrite !pass1_result_length. now apply H.
  - intros H p q Hp Hq.
    rewrite <- (pass1_result_length cv p), <- (pass1_result_length cv q).
    apply H; apply in_map_iff; eauto.
Qed.

Lemma np_array_uniform (rows : list (list point)) :
  uniform rows -> np_array rows = Returned rows.
Proof.
  intros H. destruct rows as [| r rs]; [reflexivity |].
  apply (np_array_same_length _ (length r)).
  apply Forall_forall. intros r' Hr'. apply H; [exact Hr' | now left].
Qed.

Lemma np_array_ragged (rows : list (list point)) :
  ~ uniform rows -> np_array rows = Raised "ValueError"%string.
Proof.
  intros H. destruct (np_array rows) as [arr | e] eqn:E.
  - exfalso. apply H. now apply np_array_Returned in E as [_ E].
  - now apply np_array_Raised in E as ->.
Qed.

Lemma uniform_dec (rows : list (list point)) :
  {uniform rows} + {~ uniform rows}.
Proof.
  destruct (np_array rows) as [arr | e] eqn:E.
  - left. now apply np_array_Returned in E as [_ E].
  - right. intros H. rewrite (np_array_uniform rows H) in E. discriminate.
Qed.

Lemma np_average_uniform_length (rows : list (list point))
  (r : list point) :
  uniform rows -> In r rows -> length (np_average rows) = length r.
Proof.
  intros Hu Hr.
  apply (averaged_landmarks_length rows); [| exact Hr].
  unfold averaged_landmarks. now rewrite (np_array_uniform rows Hu).
Qed.

(** The run of [align] on a batch of photos of one length, at least 5. *)
Lemma align_uniform (all_images : list image) (photos : list (list point)) :
  photos <> [] ->
  Forall (fun p => (5 <= length p)%nat) photos ->
  Forall (fun p => pupil_estimate cv p <> None) photos ->
  uniform photos ->
  align cv all_images photos
  = Returned
      (Build_output
         (map (final_transform cv (batch_average cv photos)) photos)
         (fst (composite cv all_images
                 (map (final_transform cv (batch_average cv photos)) photos)))
         (snd (composite cv all_images
                 (map (final_transform cv (batch_average cv photos)) photos)))).
Proof.
  intros Hne Hlen Hest Hu. unfold align.
  assert (Hlen4 : Forall (fun p => (4 <= length p)%nat) photos).
  { eapply Forall_impl; [| exact Hlen]. simpl. intros; lia. }
  rewrite (pass1_all_estimated photos Hlen4 Hest). cbn [Py.bind].
  set (rows := map snd (map (pass1_result cv) photos)).
  assert (Hur : uniform rows) by (apply (uniform_rows photos); exact Hu).
  assert (Hrows : forall r, In r rows -> (5 <= length r)%nat).
  { intros r Hr. unfold rows in Hr. rewrite map_map in Hr.
    apply in_map_iff in Hr as [p [<- Hp]].
    rewrite pass1_result_length. rewrite Forall_forall in Hlen.
    now apply Hlen. }
  assert (Havg : averaged_landmarks rows
                 = Returned (batch_average cv photos)).
  { unfold averaged_landmarks, batch_average.
    rewrite (np_array_uniform rows Hur). cbn [Py.bind].
    unfold rows. now rewrite map_map. }
  rewrite Havg. cbn [Py.bind].
  assert (Hal : (5 <= length (batch_average cv photos))%nat).
  { destruct photos as [| p ps]; [contradiction |].
    unfold batch_average. rewrite <- map_map. fold rows.
    rewrite (np_average_uniform_length rows (snd (pass1_result cv p)) Hur).
    - apply Hrows. unfold rows. now left.
    - unfold rows. now left. }
  destruct (for_each_total (pass2_photo cv (batch_average cv photos))
              (combine rows (map fst (map (pass1_result cv) photos))))
    as [ys ->].
  { intros [tp t] Hin. apply pass2_photo_total; [| exact Hal].
    apply in_combine_l in Hin. now apply Hrows. }
  cbn [Py.bind].
  rewrite destination_long by exact Hal.
  rewrite (for_each_map _ (final_transform cv (batch_average cv photos))).
  - cbn [Py.bind]. now destruct (composite cv all_images _).
  - intros pts Hin. rewrite Forall_forall in Hlen.
    rewrite pass3_photo_triangle by now apply Hlen. reflexivity.
Qed.

Lemma align_no_estimate (all_images : list image)
  (photos : list (list point)) :
  Forall (fun p => (4 <= length p)%nat) photos ->
  Exists (no_estimate cv) photos ->
  align cv all_images photos = Raised "AttributeError"%string.
Proof.
  intros Hlen Hex. unfold align.
  now rewrite (pass1_no_estimate photos Hlen Hex).
Qed.

Lemma align_ragged (all_images : list image) (photos : list (list point)) :
  Forall (fun p => (4 <= length p)%nat) photos ->
  Forall (fun p => pupil_estimate cv p <> None) photos ->
  ~ uniform photos ->
  align cv all_images photos = Raised "ValueError"%string.
Proof.
  intros Hlen Hest Hr. unfold align.
  rewrite (pass1_all_estimated photos Hlen Hest). cbn [Py.bind].
  unfold averaged_landmarks. rewrite np_array_ragged; [reflexivity |].
  intros Hu. apply Hr. apply (uniform_rows photos). exact Hu.
Qed.

Lemma align_empty (all_images : list image) :
  align cv all_images [] = Raised "IndexError"%string.
Proof. reflexivity. Qed.

Lemma estimate_found_dec (pts : list point) :
  {pupil_estimate cv pts <> None} + {~ pupil_estimate cv pts <> None}.
Proof.
  destruct (pupil_estimate cv pts).
  - left. discriminate.
  - right. intros H. now apply H.
Qed.

(** The four ways a run on landmark sets of at least five points ends. *)
Lemma align_cases (all_images : list image) (photos : list (list point)) :
  Forall (fun p => (5 <= length p)%nat) photos ->
  (photos = [] /\ align cv all_images photos = Raised "IndexError"%string)
  \/ (Exists (no_estimate cv) photos /\
      align cv all_images photos = Raised "AttributeError"%string)
  \/ (Forall (fun p => pupil_estimate cv p <> None) photos /\
      ~ uniform photos /\
      align cv all_images photos = Raised "ValueError"%string)
  \/ (photos <> [] /\
      Forall (fun p => pupil_estimate cv p <> None) photos /\
      uniform photos /\
      exists out, align cv all_images photos = Returned out).
Proof.
  intros Hlen.
  assert (Hlen4 : Forall (fun p => (4 <= length p)%nat) photos).
  { eapply Forall_impl; [| exact Hlen]. simpl. intros; lia. }
  destruct photos as [| p0 ps] eqn:Eph.
  { left. split; [reflexivity | apply align_empty]. }
  rewrite <- Eph in *.
  assert (Hne : photos <> []) by (rewrite Eph; discriminate).
  right.
  destruct (Forall_Exists_dec (fun p => pupil_estimate cv p <> None)
              estimate_found_dec photos) as [Hest | Hex].
  - right. destruct (uniform_dec photos) as [Hu | Hr].
    + right. repeat split; try assumption.
      eexists. now apply align_uniform.
    + left. repeat split; try assumption. now apply align_ragged.
  - left. assert (Hex' : Exists (no_estimate cv) photos).
    { eapply Exists_impl; [| exact Hex]. simpl. intros p Hp.
      unfold no_estimate. destruct (pupil_estimate cv p); [| reflexivity].
      exfalso. apply Hp. discriminate. }
    split; [exact Hex' | now apply align_no_estimate].
Qed.

End Outcomes.

Lemma main_align (cv : CV2) (entries : list (image * list point)) :
  main cv entries
  = align cv (fst (load_data entries)) (snd (load_data entries)).
Proof. reflexivity. Qed.

Ltac other_outcome H :=
  match goal with
  | H' : align _ _ _ = _ |- _ => rewrite H' in H; discriminate H
  | H' : exists _, align _ _ _ = _ |- _ =>
      let o := fresh in destruct H' as [o H']; rewrite H' in H; discriminate H
  end.

(** X8.  On a loaded batch (images that are arrays, landmark sets of at
    least five points, as [load_data] returns them when every file could
    be read) lines 155-205 of [main] run to their end exactly when the
    batch is not empty, the first estimate of every photo is not [None],
    and all photos have the same number of coordinates.  The calls that
    show and write the images are taken to succeed. *)
Theorem align_returns_iff (cv : CV2) (all_images : list image)
  (photos : list (list point)) :
  Forall (fun p => (5 <= length p)%nat) photos ->
  (exists out, align cv all_images photos = Returned out) <->
  (photos <> [] /\
   Forall (fun p => pupil_estimate cv p <> None) photos /\
   uniform photos).
Proof.
  intros Hlen.
  destruct (align_cases cv all_images photos Hlen)
    as [[E H] | [[E H] | [[E1 [E2 H]] | [E1 [E2 [E3 H]]]]]].
  - split; [intros [out Ho]; other_outcome Ho | intros [Hne _]; contradiction].
  - split; [intros [out Ho]; other_outcome Ho |].
    intros [_ [Hest _]]. exfalso.
    apply Exists_exists in E as [p [Hp Hn]].
    rewrite Forall_forall in Hest. exact (Hest p Hp Hn).
  - split; [intros [out Ho]; other_outcome Ho |].
    intros [_ [_ Hu]]. contradiction.
  - split; [now intros _ | now intros _].
Qed.

Lemma align_returns_iff_witness :
  exists out, align Sample.cv [Sample.grey] [Sample.face] = Returned out.
Proof.
  assert (Hlen : Forall (fun p => (5 <= length p)%nat) [Sample.face]).
  { constructor; [simpl; lia | constructor]. }
  apply (proj2 (align_returns_iff Sample.cv [Sample.grey] [Sample.face]
                  Hlen)).
  split; [discriminate |]. split.
  - constructor; [| constructor]. now destruct sample_face_eligible.
  - intros p q [<- | []] [<- | []]. reflexivity.
Defined.

(** X9.  On a loaded batch (images that are arrays, landmark sets of at
    least five points, as [load_data] returns them when every file could
    be read) the exceptions of lines 155-205 of [main]: an [IndexError]
    exactly when the batch is empty; an [AttributeError] exactly when the
    first estimate of some photo is [None]; a [ValueError] exactly when
    all estimates are found but two photos differ in their number of
    coordinates.  The calls that show and write the images are taken to
    succeed. *)
Theorem align_exceptions (cv : CV2) (all_images : list image)
  (photos : list (list point)) :
  Forall (fun p => (5 <= length p)%nat) photos ->
  (align cv all_images photos = Raised "IndexError"%string
   <-> photos = [])
  /\ (align cv all_images photos = Raised "AttributeError"%string
      <-> Exists (no_estimate cv) photos)
  /\ (align cv all_images photos = Raised "ValueError"%string
      <-> Forall (fun p => pupil_estimate cv p <> None) photos
          /\ ~ uniform photos).
Proof.
  intros Hlen.
  destruct (align_cases cv all_images photos Hlen)
    as [[E H] | [[E H] | [[E1 [E2 H]] | [E1 [E2 [E3 H]]]]]].
  - split; [| split]; (split; intros Ho); try other_outcome Ho;
      try assumption.
    + rewrite E in Ho. inversion Ho.
    + destruct Ho as [_ Hr]. exfalso. apply Hr. rewrite E. intros ? ? [].
  - split; [| split]; (split; intros Ho); try other_outcome Ho;
      try assumption.
    + exfalso. rewrite Ho in E. inversion E.
    + destruct Ho as [Hest _]. exfalso.
      apply Exists_exists in E as [p [Hp Hn]].
      rewrite Forall_forall in Hest. exact (Hest p Hp Hn).
  - split; [| split]; (split; intros Ho); try other_outcome Ho;
      try assumption.
    + exfalso. apply E2. rewrite Ho. intros ? ? [].
    + exfalso. apply Exists_exists in Ho as [p [Hp Hn]].
      rewrite Forall_forall in E1. exact (E1 p Hp Hn).
    + now split.
  - split; [| split]; (split; intros Ho); try other_outcome Ho;
      try assumption.
    + contradiction.
    + exfalso. apply Exists_exists in Ho as [p [Hp Hn]].
      rewrite Forall_forall in E2. exact (E2 p Hp Hn).
    + destruct Ho as [_ Hr]. contradiction.
Qed.

Lemma align_exceptions_witness :
  align Sample.cv [] [] = Raised "IndexError"%string.
Proof.
  apply (proj2 (proj1 (align_exceptions Sample.cv [] [] (Forall_nil _)))).
  reflexivity.
Defined.

(* ================================================================== *)
(** * What a run returns *)
(* ================================================================== *)

Lemma align_Returned_transforms (cv : CV2) (all_images : list image)
  (photos : list (list point)) (out : output) :
  align cv all_images photos = Returned out ->
  length (all_transforms3 out) = length photos /\
  new_images out = fst (composite cv all_images (all_transforms3 out)) /\
  average_image out = snd (composite cv all_images (all_transforms3 out)).
Proof.
  unfold align.
  destruct (pass1 cv photos) as [firsts | e]; cbn [Py.bind];
    [| discriminate].
  destruct (averaged_landmarks _) as [avg | e]; cbn [Py.bind];
    [| discriminate].
  destruct (for_each (pass2_photo cv avg) _) as [t2 | e]; cbn [Py.bind];
    [| discriminate].
  do 3 (destruct (getitem avg _); cbn [Py.bind]; [| discriminate]).
  destruct (for_each (pass3_photo cv _) photos) as [ts | e] eqn:H3;
    cbn [Py.bind]; [| discriminate].
  destruct (composite cv all_images ts) as [w av] eqn:Hc.
  intros E; injection E as <-. cbn [all_transforms3 new_images average_image].
  rewrite Hc. repeat split.
  apply for_each_Returned, Forall2_length in H3. now symmetry.
Qed.

Lemma map_snd_combine_same {A B} (l1 : list A) (l2 : list B) :
  length l1 = length l2 -> map snd (combine l1 l2) = l2.
Proof.
  revert l2. induction l1 as [| a l1 IH]; intros [| b l2] H;
    simpl in *; try discriminate; [reflexivity |].
  f_equal. apply IH. lia.
Qed.

Lemma Rsum_div (xs : list R) (d : R) :
  Rsum (map (fun x => x / d) xs) = Rsum xs / d.
Proof.
  induction xs as [| x xs IH]; simpl.
  - unfold Rdiv. ring.
  - rewrite IH. unfold Rdiv. ring.
Qed.

Lemma sample_entry_kept :
  snd (load_data [(fun _ _ _ => 255, Sample.face)]) = [Sample.face].
Proof. reflexivity. Qed.

Lemma sample_entry_runs :
  exists out,
    main Sample.cv [(fun _ _ _ => 255, Sample.face)] = Returned out.
Proof.
  rewrite main_align, sample_entry_kept. eexists.
  apply align_eligible; [discriminate |].
  exact (sample_batch_eligible 1).
Qed.

(** X10.  When [main] returns there is one final transform and one written
    image for each kept photo, and the images are numbered 0, 1, 2, ... in
    the order of the kept photos. *)
Theorem main_numbers_outputs (cv : CV2)
  (entries : list (image * list point)) (out : output) :
  main cv entries = Returned out ->
  length (all_transforms3 out) = length (snd (load_data entries)) /\
  map fst (new_images out) = seq 0 (length (snd (load_data entries))).
Proof.
  rewrite main_align. intros H.
  destruct (load_data_landmarks entries) as [Hl _].
  apply align_Returned_transforms in H as [Hts [Hw _]].
  split; [exact Hts |].
  rewrite Hw, composite_turns. cbn [fst]. rewrite map_map. cbn [fst].
  unfold turns. rewrite map_snd_combine_same.
  - now rewrite Hl.
  - rewrite length_combine, length_seq, Hts, Hl. apply Nat.min_id.
Qed.

Lemma main_numbers_outputs_witness :
  exists out,
    main Sample.cv [(fun _ _ _ => 255, Sample.face)] = Returned out /\
    map fst (new_images out) = [0%nat].
Proof.
  destruct sample_entry_runs as [out Ho].
  exists out. split; [exact Ho |].
  destruct (main_numbers_outputs Sample.cv _ out Ho) as [_ H].
  exact H.
Defined.

(** X11.  When the run returns, every sample of the average image is the
    sum of that sample over the written images, divided by the number of
    images. *)
Theorem average_is_mean_of_written (cv : CV2) (all_images : list image)
  (photos : list (list point)) (out : output) :
  align cv all_images photos = Returned out ->
  forall r c k,
    average_image out r c k
    = Rsum (map (fun ni : nat * image => snd ni r c k) (new_images out))
      / INR (length all_images).
Proof.
  intros H r c k.
  apply align_Returned_transforms in H as [_ [Hw Ha]].
  rewrite Ha, Hw, composite_turns. cbn [fst snd].
  rewrite average_pixel, map_map. cbn [snd]. unfold np_zeros.
  rewrite <- Rsum_div, map_map. lra.
Qed.

Lemma average_is_mean_of_written_witness :
  exists out,
    align Sample.cv [Sample.grey] [Sample.face] = Returned out /\
    average_image out 0%nat 0%nat 0%nat
    = Rsum (map (fun ni : nat * image => snd ni 0%nat 0%nat 0%nat)
              (new_images out)) / INR 1.
Proof.
  eexists. split.
  - apply (align_eligible Sample.cv [Sample.grey] [Sample.face]).
    + discriminate.
    + exact (sample_batch_eligible 1).
  - apply (average_is_mean_of_written Sample.cv [Sample.grey]
             [Sample.face]).
    apply (align_eligible Sample.cv [Sample.grey] [Sample.face]).
    + discriminate.
    + exact (sample_batch_eligible 1).
Defined.

(* ================================================================== *)
(** * The landmarks that matter *)
(* ================================================================== *)

Lemma Forall2_In_r {A B} (R : A -> B -> Prop) (l : list A) (l' : list B)
  (y : B) :
  Forall2 R l l' -> In y l' -> exists x, In x l /\ R x y.
Proof.
  induction 1 as [| x y' l l' Hxy _ IH]; intros Hin; [destruct Hin |].
  destruct Hin as [<- | Hin].
  - exists x. split; [now left | assumption].
  - destruct (IH Hin) as [x' [Hx' HR]]. exists x'. split; [now right | easy].
Qed.

Lemma Forall2_In_l {A B} (R : A -> B -> Prop) (l : list A) (l' : list B)
  (x : A) :
  Forall2 R l l' -> In x l -> exists y, In y l' /\ R x y.
Proof.
  induction 1 as [| x' y l l' Hxy _ IH]; intros Hin; [destruct Hin |].
  destruct Hin as [<- | Hin].
  - exists y. split; [now left | assumption].
  - destruct (IH Hin) as [y' [Hy' HR]]. exists y'. split; [now right | easy].
Qed.

Lemma map_Forall2 {A B C} (R : A -> B -> Prop) (f : A -> C) (g : B -> C)
  (l : list A) (l' : list B) :
  Forall2 R l l' -> (forall x y, R x y -> f x = g y) -> map f l = map g l'.
Proof.
  induction 1 as [| x y l l' Hxy _ IH]; intros H; simpl; [reflexivity |].
  rewrite (H x y Hxy), IH by assumption. reflexivity.
Qed.

Section Landmarks.

Context (cv : CV2).

Lemma pupil_estimate_same (p q : list point) :
  (4 <= length p)%nat -> length p = length q -> same_triangle p q ->
  pupil_estimate cv p = pupil_estimate cv q.
Proof.
  intros Hp Hl [H0 [H3 _]].
  destruct p as [| p0 [| p1 [| p2 [| p3 p']]]]; simpl in Hp; try lia.
  destruct q as [| q0 [| q1 [| q2 [| q3 q']]]]; simpl in Hl; try lia.
  simpl in H0, H3. subst q0 q3. reflexivity.
Qed.

Lemma pass1_result_nth (p : list point) (j : nat) :
  (j < length p)%nat ->
  nth j (snd (pass1_result cv p)) (0, 0)
  = match pupil_estimate cv p with
    | Some T => transform_point T (nth j p (0, 0))
    | None => nth j p (0, 0)
    end.
Proof.
  intros Hj. unfold pass1_result.
  destruct (pupil_estimate cv p) as [T |]; cbn [snd]; [| reflexivity].
  rewrite (nth_indep _ (0, 0) (transform_point T (0, 0)))
    by now rewrite length_map.
  apply map_nth.
Qed.

Lemma batch_average_nth (photos : list (list point)) (L j : nat) :
  photos <> [] -> Forall (fun p => length p = L) photos -> (j < L)%nat ->
  nth j (batch_average cv photos) (0, 0)
  = (Rsum (map (fun p => fst (nth j (snd (pass1_result cv p)) (0, 0)))
             photos) / INR (length photos),
     Rsum (map (fun p => snd (nth j (snd (pass1_result cv p)) (0, 0)))
             photos) / INR (length photos)).
Proof.
  intros Hne HL Hj. unfold batch_average.
  rewrite (np_average_nth _ L j).
  - now rewrite !map_map, length_map.
  - destruct photos; [contradiction | discriminate].
  - apply Forall_forall. intros r Hr.
    apply in_map_iff in Hr as [p [<- Hp]].
    rewrite pass1_result_length. rewrite Forall_forall in HL. now apply HL.
  - exact Hj.
Qed.

Lemma uniform_Forall (photos : list (list point)) (p : list point) :
  uniform photos -> In p photos ->
  Forall (fun q => length q = length p) photos.
Proof.
  intros Hu Hp. apply Forall_forall. intros q Hq. now apply Hu.
Qed.

Lemma batch_average_triangle (photos photos' : list (list point)) :
  photos <> [] -> uniform photos ->
  Forall (fun p => (5 <= length p)%nat) photos ->
  Forall2 (fun p q => length p = length q /\ same_triangle p q)
    photos photos' ->
  triangle (batch_average cv photos) = triangle (batch_average cv photos').
Proof.
  intros Hne Hu Hlen HR.
  destruct photos as [| p0 ps] eqn:Eph; [contradiction |].
  rewrite <- Eph in *.
  assert (Hp0 : In p0 photos) by (rewrite Eph; now left).
  assert (HL : Forall (fun p => length p = length p0) photos)
    by now apply uniform_Forall.
  assert (H5 : (5 <= length p0)%nat).
  { rewrite Forall_forall in Hlen. now apply Hlen. }
  assert (HL' : Forall (fun q => length q = length p0) photos').
  { apply Forall_forall. intros q Hq.
    destruct (Forall2_In_r _ _ _ _ HR Hq) as [p [Hp [Hpq _]]].
    rewrite <- Hpq. rewrite Forall_forall in HL. now apply HL. }
  assert (Hne' : photos' <> []).
  { intros E. rewrite E in HR. apply Forall2_length in HR.
    rewrite Eph in HR. discriminate. }
  assert (Hslot : forall j, (j = 0 \/ j = 3 \/ j = 4)%nat ->
            nth j (batch_average cv photos) (0, 0)
            = nth j (batch_average cv photos') (0, 0)).
  { intros j Hj.
    rewrite (batch_average_nth photos (length p0) j Hne HL) by lia.
    rewrite (batch_average_nth photos' (length p0) j Hne' HL') by lia.
    rewrite (Forall2_length HR).
    assert (Hpt : forall p q,
               length p = length q /\ same_triangle p q -> In p photos ->
               nth j (snd (pass1_result cv p)) (0, 0)
               = nth j (snd (pass1_result cv q)) (0, 0)).
    { intros p q [Hl Hs] Hp.
      assert (Hp5 : (5 <= length p)%nat).
      { rewrite Forall_forall in Hlen. now apply Hlen. }
      rewrite !pass1_result_nth by lia.
      rewrite <- (pupil_estimate_same p q) by (try lia; assumption).
      destruct Hs as [H0 [H3 H4]].
      assert (Hn : nth j p (0, 0) = nth j q (0, 0))
        by (destruct Hj as [-> | [-> | ->]]; assumption).
      now rewrite Hn. }
    assert (HR' : Forall2 (fun p q =>
                    nth j (snd (pass1_result cv p)) (0, 0)
                    = nth j (snd (pass1_result cv q)) (0, 0))
                    photos photos').
    { clear - HR Hpt. induction HR as [| p q l l' Hpq _ IH]; constructor.
      - apply Hpt; [exact Hpq | now left].
      - apply IH. intros p' q' H' Hin. apply Hpt; [exact H' | now right]. }
    f_equal; f_equal; f_equal;
      (apply (map_Forall2 _ _ _ _ _ HR'); intros x y E; now rewrite E). }
  unfold triangle. rewrite !Hslot by lia. reflexivity.
Qed.

End Landmarks.

(** X12.  Only the pupils and the mouth count: two batches whose photos
    agree in their number of coordinates and in slots 0, 3 and 4 end the
    same way on the same images, whatever the tear ducts (slots 1 and 2)
    and any coordinates after the fifth are: the same final transforms,
    written images and average image, or the same exception. *)
Theorem only_pupils_and_mouth_count (cv : CV2) (all_images : list image)
  (photos photos' : list (list point)) :
  Forall (fun p => (5 <= length p)%nat) photos ->
  Forall2 (fun p q => length p = length q /\ same_triangle p q)
    photos photos' ->
  align cv all_images photos = align cv all_images photos'.
Proof.
  intros Hlen HR.
  assert (Hlen' : Forall (fun q => (5 <= length q)%nat) photos').
  { apply Forall_forall. intros q Hq.
    destruct (Forall2_In_r _ _ _ _ HR Hq) as [p [Hp [Hpq _]]].
    rewrite <- Hpq. rewrite Forall_forall in Hlen. now apply Hlen. }
  assert (H4 : forall l : list (list point),
             Forall (fun p => (5 <= length p)%nat) l ->
             Forall (fun p => (4 <= length p)%nat) l).
  { intros l Hl. eapply Forall_impl; [| exact Hl]. simpl. intros; lia. }
  assert (Hest : forall p q, In p photos ->
                   length p = length q /\ same_triangle p q ->
                   pupil_estimate cv p = pupil_estimate cv q).
  { intros p q Hp [Hl Hs]. apply pupil_estimate_same; try assumption.
    rewrite Forall_forall in Hlen. specialize (Hlen p Hp). lia. }
  assert (Hfound : Forall (fun p => pupil_estimate cv p <> None) photos ->
                   Forall (fun q => pupil_estimate cv q <> None) photos').
  { intros Hf. apply Forall_forall. intros q Hq.
    destruct (Forall2_In_r _ _ _ _ HR Hq) as [p [Hp Hpq]].
    rewrite <- (Hest p q Hp Hpq). rewrite Forall_forall in Hf.
    now apply Hf. }
  assert (Huni : uniform photos <-> uniform photos').
  { unfold uniform. split.
    - intros Hu q1 q2 Hq1 Hq2.
      destruct (Forall2_In_r _ _ _ _ HR Hq1) as [p1 [Hp1 [E1 _]]].
      destruct (Forall2_In_r _ _ _ _ HR Hq2) as [p2 [Hp2 [E2 _]]].
      rewrite <- E1, <- E2. now apply Hu.
    - intros Hu p1 p2 Hp1 Hp2.
      destruct (Forall2_In_l _ _ _ _ HR Hp1) as [q1 [Hq1 [E1 _]]].
      destruct (Forall2_In_l _ _ _ _ HR Hp2) as [q2 [Hq2 [E2 _]]].
      rewrite E1, E2. now apply Hu. }
  destruct (align_cases cv all_images photos Hlen)
    as [[E H] | [[E H] | [[E1 [E2 H]] | [E1 [E2 [E3 _]]]]]].
  - rewrite H. subst photos. inversion HR; subst. reflexivity.
  - rewrite H. symmetry. apply align_no_estimate; [now apply H4 |].
    apply Exists_exists in E as [p [Hp Hn]].
    destruct (Forall2_In_l _ _ _ _ HR Hp) as [q [Hq Hpq]].
    apply Exists_exists. exists q. split; [exact Hq |].
    unfold no_estimate in *. now rewrite <- (Hest p q Hp Hpq).
  - rewrite H. symmetry. apply align_ragged; [now apply H4 | auto |].
    intros Hu. apply E2. now apply Huni.
  - assert (Hne' : photos' <> []).
    { intros E. rewrite E in HR. inversion HR. now subst. }
    rewrite (align_uniform cv all_images photos) by assumption.
    rewrite (align_uniform cv all_images photos')
      by first [assumption | now apply Hfound | now apply Huni].
    assert (Ets : map (final_transform cv (batch_average cv photos)) photos
                  = map (final_transform cv (batch_average cv photos'))
                      photos').
    { apply (map_Forall2 _ _ _ _ _ HR). intros p q [_ [H0 [H3 H4']]].
      unfold final_transform.
      rewrite (batch_average_triangle cv photos photos') by assumption.
      unfold triangle. now rewrite H0, H3, H4'. }
    now rewrite Ets.
Qed.

Lemma only_pupils_and_mouth_count_witness :
  align Sample.cv [Sample.grey] [Sample.face]
  = align Sample.cv [Sample.grey]
      [[(2, 2); (0, 9); (9, 0); (6, 2); (4, 5)]].
Proof.
  apply only_pupils_and_mouth_count.
  - constructor; [simpl; lia | constructor].
  - constructor; [| constructor].
    split; [reflexivity |]. repeat split.
Defined.

(* ================================================================== *)
(** * The order of the files *)
(* ================================================================== *)

Lemma Rsum_Permutation (xs ys : list R) :
  Permutation xs ys -> Rsum xs = Rsum ys.
Proof.
  induction 1; simpl; try lra.
Qed.

Lemma filter_Permutation {A} (f : A -> bool) (l l' : list A) :
  Permutation l l' -> Permutation (filter f l) (filter f l').
Proof.
  induction 1 as [| x l l' _ IH | x y l | l l' l'' _ IH1 _ IH2]; simpl.
  - constructor.
  - destruct (f x); [now constructor | exact IH].
  - destruct (f x), (f y); try apply Permutation_refl. apply perm_swap.
  - eapply Permutation_trans; eassumption.
Qed.

Lemma uniform_Permutation (l l' : list (list point)) :
  Permutation l l' -> uniform l -> uniform l'.
Proof.
  intros HP Hu p q Hp Hq.
  apply Hu; eapply Permutation_in; try eassumption;
    now apply Permutation_sym.
Qed.

Lemma Forall_Permutation {A} (P : A -> Prop) (l l' : list A) :
  Permutation l l' -> Forall P l -> Forall P l'.
Proof.
  intros HP H. apply Forall_forall. intros x Hx.
  rewrite Forall_forall in H. apply H.
  eapply Permutation_in; [apply Permutation_sym |]; eassumption.
Qed.

Lemma Exists_Permutation {A} (P : A -> Prop) (l l' : list A) :
  Permutation l l' -> Exists P l -> Exists P l'.
Proof.
  intros HP H. apply Exists_exists in H as [x [Hx HPx]].
  apply Exists_exists. exists x. split; [| exact HPx].
  eapply Permutation_in; eassumption.
Qed.

Section FileOrder.

Context (cv : CV2).

Lemma batch_average_length (photos : list (list point)) (p : list point) :
  uniform photos -> In p photos ->
  length (batch_average cv photos) = length p.
Proof.
  intros Hu Hp. unfold batch_average. rewrite <- map_map.
  rewrite <- (pass1_result_length cv p).
  apply np_average_uniform_length.
  - now apply uniform_rows.
  - rewrite map_map. apply in_map_iff. now exists p.
Qed.

Lemma batch_average_Permutation (photos photos' : list (list point)) :
  Permutation photos photos' -> uniform photos ->
  batch_average cv photos = batch_average cv photos'.
Proof.
  intros HP Hu.
  destruct photos as [| p0 ps] eqn:Eph.
  { apply Permutation_nil in HP. now subst. }
  rewrite <- Eph in *.
  assert (Hne : photos <> []) by (rewrite Eph; discriminate).
  assert (Hp0 : In p0 photos) by (rewrite Eph; now left).
  assert (Hu' : uniform photos') by (eapply uniform_Permutation; eassumption).
  assert (Hp0' : In p0 photos') by (eapply Permutation_in; eassumption).
  assert (Hne' : photos' <> []) by (intros E; rewrite E in Hp0'; easy).
  apply (@nth_ext point _ _ (0, 0) (0, 0)).
  - now rewrite (batch_average_length photos p0),
      (batch_average_length photos' p0).
  - intros j Hj. rewrite (batch_average_length photos p0) in Hj by assumption.
    rewrite (batch_average_nth cv photos (length p0) j)
      by (try assumption; now apply uniform_Forall).
    rewrite (batch_average_nth cv photos' (length p0) j)
      by (try assumption; now apply uniform_Forall).
    rewrite (Permutation_length HP).
    f_equal; f_equal; apply Rsum_Permutation, Permutation_map, HP.
Qed.

Lemma turns_of_entries {X} (f1 : X -> image) (f2 : X -> mat23)
  (K : list X) :
  map (warped cv) (turns (map f1 K) (map f2 K))
  = map (fun e => warpAffine cv (f1 e) (f2 e) (output_width, output_height))
      K.
Proof.
  unfold turns. generalize 0%nat as s.
  induction K as [| e K IH]; intros s; [reflexivity |].
  cbn [map length seq combine]. f_equal. apply IH.
Qed.

Lemma written_of_entries {X} (f1 : X -> image) (f2 : X -> mat23)
  (K K' : list X) :
  Permutation K K' ->
  Permutation
    (map snd (fst (composite cv (map f1 K) (map f2 K))))
    (map snd (fst (composite cv (map f1 K') (map f2 K')))).
Proof.
  intros HP. rewrite !composite_turns. cbn [fst].
  rewrite !map_map. cbn [snd].
  change (Permutation (map (warped cv) (turns (map f1 K) (map f2 K)))
            (map (warped cv) (turns (map f1 K') (map f2 K')))).
  rewrite !turns_of_entries. now apply Permutation_map.
Qed.

Lemma average_of_entries {X} (f1 : X -> image) (f2 : X -> mat23)
  (K K' : list X) (r c k : nat) :
  Permutation K K' ->
  snd (composite cv (map f1 K) (map f2 K)) r c k
  = snd (composite cv (map f1 K') (map f2 K')) r c k.
Proof.
  intros HP. rewrite !composite_turns. cbn [snd].
  rewrite !average_pixel. f_equal.
  rewrite !length_map, (Permutation_length HP).
  rewrite <- !(map_map (warped cv)
                 (fun im : image => im r c k / INR (length K'))).
  rewrite !turns_of_entries.
  apply Rsum_Permutation. now do 2 apply Permutation_map.
Qed.

End FileOrder.

(** X13.  The order in which the entries are listed does not matter beyond
    the numbering of the written images: on a reordered list [main] raises
    the same exception or returns the same final transforms and the same
    written images up to their order, and the same average image. *)
Theorem file_order_does_not_matter (cv : CV2)
  (entries entries' : list (image * list point)) :
  Permutation entries entries' ->
  (forall e, main cv entries = Raised e -> main cv entries' = Raised e) /\
  (forall out, main cv entries = Returned out ->
     exists out',
       main cv entries' = Returned out' /\
       Permutation (all_transforms3 out) (all_transforms3 out') /\
       Permutation (map snd (new_images out)) (map snd (new_images out')) /\
       forall r c k, average_image out r c k = average_image out' r c k).
Proof.
  intros HP.
  set (keep := fun e : image * list point =>
                 negb (length (snd e) <? 5)%nat).
  assert (HK : Permutation (filter keep entries) (filter keep entries'))
    by now apply filter_Permutation.
  assert (Hkept : Permutation (snd (load_data entries))
                    (snd (load_data entries'))).
  { unfold load_data; cbn [snd]. now apply Permutation_map. }
  destruct (load_data_landmarks entries) as [_ Hlen].
  destruct (load_data_landmarks entries') as [_ Hlen'].
  assert (Hlen4' : Forall (fun p => (4 <= length p)%nat)
                     (snd (load_data entries'))).
  { eapply Forall_impl; [| exact Hlen']. simpl. intros; lia. }
  rewrite !main_align.
  destruct (align_cases cv (fst (load_data entries)) _ Hlen)
    as [[E H] | [[E H] | [[E1 [E2 H]] | [Hne [Hf [Hu H]]]]]].
  - split; [| intros out Ho; other_outcome Ho].
    intros e He. rewrite H in He. injection He as <-.
    rewrite E in Hkept. apply Permutation_nil in Hkept. rewrite Hkept.
    apply align_empty.
  - split; [| intros out Ho; other_outcome Ho].
    intros e He. rewrite H in He. injection He as <-.
    apply align_no_estimate; [exact Hlen4' |].
    eapply Exists_Permutation; eassumption.
  - split; [| intros out Ho; other_outcome Ho].
    intros e He. rewrite H in He. injection He as <-.
    apply align_ragged; [exact Hlen4' | |].
    + eapply Forall_Permutation; eassumption.
    + intros Hu. apply E2.
      eapply uniform_Permutation; [apply Permutation_sym |]; eassumption.
  - split; [intros e He; other_outcome He |].
    intros out Ho.
    assert (Hne' : snd (load_data entries') <> []).
    { intros E. rewrite E in Hkept. apply Permutation_sym in Hkept.
      now apply Permutation_nil in Hkept. }
    assert (Hf' : Forall (fun p => pupil_estimate cv p <> None)
                    (snd (load_data entries')))
      by (eapply Forall_Permutation; eassumption).
    assert (Hu' : uniform (snd (load_data entries')))
      by (eapply uniform_Permutation; eassumption).
    rewrite (align_uniform cv _ _ Hne Hlen Hf Hu) in Ho.
    injection Ho as <-.
    eexists. split.
    { apply (align_uniform cv _ _ Hne' Hlen' Hf' Hu'). }
    cbn [all_transforms3 new_images average_image].
    rewrite <- (batch_average_Permutation cv _ _ Hkept Hu).
    set (F := final_transform cv (batch_average cv (snd (load_data entries)))).
    split; [now apply Permutation_map |].
    unfold load_data; cbn [fst snd].
    rewrite !(map_map snd F).
    split.
    + apply (written_of_entries cv _ (fun e => F (snd e)) _ _ HK).
    + intros r c k.
      apply (average_of_entries cv _ (fun e => F (snd e)) _ _ r c k HK).
Qed.

Lemma file_order_does_not_matter_witness :
  exists out out',
    main Sample.cv
      [(fun _ _ _ => 255, Sample.face); (fun _ _ _ => 0, Sample.face)]
    = Returned out /\
    main Sample.cv
      [(fun _ _ _ => 0, Sample.face); (fun _ _ _ => 255, Sample.face)]
    = Returned out' /\
    Permutation (all_transforms3 out) (all_transforms3 out').
Proof.
  assert (Hrun : exists out,
             main Sample.cv
               [(fun _ _ _ => 255, Sample.face);
                (fun _ _ _ => 0, Sample.face)] = Returned out).
  { rewrite main_align.
    change (snd (load_data
                   [(fun _ _ _ => 255, Sample.face);
                    (fun _ _ _ => 0, Sample.face)]))
      with [Sample.face; Sample.face].
    eexists. apply align_eligible; [discriminate |].
    exact (sample_batch_eligible 2). }
  destruct Hrun as [out Ho].
  destruct (file_order_does_not_matter Sample.cv _ _
              (perm_swap (fun _ _ _ => 0, Sample.face)
                 (fun _ _ _ => 255, Sample.face) [])) as [_ H].
  destruct (H out Ho) as [out' [Ho' [HT _]]].
  exists out, out'. split; [exact Ho |]. split; [exact Ho' | exact HT].
Defined.

(** X14.  For a batch of N copies of one photo the averaged landmarks are
    the landmarks the first loop left for that photo. *)
Theorem identical_photos_average_landmarks (cv : CV2) (N : nat)
  (pts : list point) :
  (0 < N)%nat -> eligible cv pts ->
  pass1 cv (repeat pts N) = Returned (repeat (pass1_result cv pts) N) /\
  averaged_landmarks (map snd (repeat (pass1_result cv pts) N))
  = Returned (snd (pass1_result cv pts)).
Proof.
  intros HN He.
  assert (Hel : Forall (eligible cv) (repeat pts N)).
  { apply Forall_forall. intros p Hp. now apply repeat_spec in Hp as ->. }
  split.
  { rewrite (pass1_eligible cv _ Hel). now rewrite map_repeat. }
  rewrite <- (map_repeat pts N (pass1_result cv)).
  rewrite (averaged_landmarks_eligible cv _ Hel). f_equal.
  set (r := snd (pass1_result cv pts)).
  assert (Hr : length r = 5%nat).
  { unfold r. rewrite pass1_result_length. now destruct He. }
  assert (Hne : repeat pts N <> []) by (destruct N; [lia | discriminate]).
  assert (HL : Forall (fun p => length p = 5%nat) (repeat pts N)).
  { eapply Forall_impl; [| exact Hel]. now intros p [Hp _]. }
  apply (@nth_ext point _ _ (0, 0) (0, 0)).
  - rewrite Hr. unfold batch_average. rewrite <- map_map.
    apply np_average_length.
    + destruct N; [lia | discriminate].
    + now apply transformed_rows_length.
  - intros j Hj.
    assert (Hj5 : (j < 5)%nat).
    { unfold batch_average in Hj. rewrite <- map_map in Hj.
      rewrite (np_average_length _ 5%nat) in Hj; [exact Hj | |].
      - destruct N; [lia | discriminate].
      - now apply transformed_rows_length. }
    rewrite (batch_average_nth cv _ 5%nat j Hne HL Hj5).
    rewrite !map_repeat, !Rsum_repeat, repeat_length. fold r.
    assert (HNR : INR N <> 0) by (apply not_0_INR; lia).
    destruct (nth j r (0, 0)) as [x y]. cbn [fst snd].
    f_equal; field; exact HNR.
Qed.

Lemma identical_photos_average_landmarks_witness :
  averaged_landmarks
    (map snd (repeat (pass1_result Sample.cv Sample.face) 3))
  = Returned (snd (pass1_result Sample.cv Sample.face)).
Proof.
  destruct (identical_photos_average_landmarks Sample.cv 3 Sample.face)
    as [_ H].
  - lia.
  - exact sample_face_eligible.
  - exact H.
Defined.

(* ================================================================== *)
(** * Reading the coordinate files: properties *)
(* ================================================================== *)

Lemma split_not_nil (sep : ascii) (s : string) : Str.split sep s <> [].
Proof.
  destruct s as [| c s]; simpl; [discriminate |].
  destruct (Ascii.eqb c sep); [discriminate |].
  destruct (Str.split sep s); discriminate.
Qed.

Lemma split_no_separator (sep : ascii) (s : string) :
  Str.contains sep s = false -> Str.split sep s = [s].
Proof.
  induction s as [| c s IH]; simpl; [reflexivity |].
  intros H. apply orb_false_iff in H as [Hc Hs].
  rewrite Hc, (IH Hs). reflexivity.
Qed.

Lemma split_at_separator (sep : ascii) (x s : string) :
  Str.contains sep x = false ->
  Str.split sep (x ++ String sep s) = x :: Str.split sep s.
Proof.
  induction x as [| c x IH]; simpl; intros H.
  - now rewrite Ascii.eqb_refl.
  - apply orb_false_iff in H as [Hc Hx].
    rewrite Hc, (IH Hx). reflexivity.
Qed.

Lemma drop_last_append (base ext : string) :
  Str.drop_last (String.length ext) (base ++ ext) = base.
Proof.
  unfold Str.drop_last.
  replace (String.length (base ++ ext) - String.length ext)%nat
    with (String.length base).
  - induction base as [| c base IH]; simpl.
    + destruct ext; reflexivity.
    + now rewrite IH.
  - assert (H : String.length (base ++ ext)
                = (String.length base + String.length ext)%nat).
    { induction base as [| c base IH]; simpl; [reflexivity | now rewrite IH]. }
    lia.
Qed.

Section LoadingProperties.

Context (disk : Disk).

Lemma read_line_Raised (line : string) (e : exn) :
  read_line disk line = Raised e -> e = "ValueError"%string.
Proof.
  unfold read_line, to_float32.
  destruct (firstn 2 (Str.split " " line)) as [| x [| y [| z l]]];
    try (intros H; now injection H).
  destruct (np_float32 disk x); cbn [Py.bind];
    [| intros H; now injection H].
  destruct (np_float32 disk y); cbn [Py.bind];
    [discriminate | intros H; now injection H].
Qed.

Lemma read_line_no_space (line : string) :
  Str.contains " " line = false ->
  read_line disk line = Raised "ValueError"%string.
Proof.
  intros H. unfold read_line. now rewrite (split_no_separator _ _ H).
Qed.

Lemma load_coords_Raised (jpg_path : string) (e : exn) :
  load_coords_for_image disk jpg_path = Raised e -> e = "ValueError"%string.
Proof.
  unfold load_coords_for_image.
  destruct (isfile disk _); [| discriminate].
  intros H. apply for_each_Raised in H as [line [_ H]].
  eapply read_line_Raised; eassumption.
Qed.

End LoadingProperties.

(** X15.  The coordinates of [base.jpg] (of any name ending in four
    characters) are read from [base.txt]; when that is not a file the
    result is the empty list, and otherwise there is one coordinate pair
    for each line of the file. *)
Theorem coordinates_come_from_txt (disk : Disk) (base ext : string) :
  String.length ext = 4%nat ->
  (isfile disk (base ++ ".txt") = false ->
   load_coords_for_image disk (base ++ ext) = Returned []) /\
  (isfile disk (base ++ ".txt") = true ->
   load_coords_for_image disk (base ++ ext)
   = for_each (read_line disk) (lines_of disk (base ++ ".txt"))) /\
  (forall coords,
     load_coords_for_image disk (base ++ ext) = Returned coords ->
     isfile disk (base ++ ".txt") = true ->
     length coords = length (lines_of disk (base ++ ".txt"))).
Proof.
  intros Hext. unfold load_coords_for_image.
  rewrite <- Hext, drop_last_append.
  repeat split.
  - intros ->. reflexivity.
  - intros ->. reflexivity.
  - intros coords H Hf. rewrite Hf in H.
    apply for_each_Returned, Forall2_length in H. now symmetry.
Qed.

(** X16.  A line without a space in an existing coordinate file (an empty
    last line, say) makes [load_coords_for_image] raise [ValueError],
    wherever the line is and whatever the other lines are. *)
Theorem line_without_space_raises (disk : Disk) (jpg_path line : string) :
  isfile disk (Str.drop_last 4 jpg_path ++ ".txt") = true ->
  In line (lines_of disk (Str.drop_last 4 jpg_path ++ ".txt")) ->
  Str.contains " " line = false ->
  load_coords_for_image disk jpg_path = Raised "ValueError"%string.
Proof.
  intros Hf Hin Hsp.
  destruct (load_coords_for_image disk jpg_path) as [coords | e] eqn:E.
  - exfalso. unfold load_coords_for_image in E. rewrite Hf in E.
    apply for_each_Returned in E.
    destruct (Forall2_In_l _ _ _ _ E Hin) as [pt [_ Hpt]].
    rewrite (read_line_no_space disk line Hsp) in Hpt. discriminate.
  - now apply load_coords_Raised in E as ->.
Qed.

(** X17.  Only the first two fields of a line are read: for [x] and [y]
    without spaces, everything after a second space is ignored, and the
    two numbers are what [np.float32] reads in [x] and in [y]. *)
Theorem only_two_fields_are_read (disk : Disk) (x y rest : string) :
  Str.contains " " x = false -> Str.contains " " y = false ->
  read_line disk (x ++ " " ++ y ++ " " ++ rest)
  = read_line disk (x ++ " " ++ y)
  /\ read_line disk (x ++ " " ++ y)
     = (fx <- to_float32 disk x ;; fy <- to_float32 disk y ;;
        Returned (fx, fy)).
Proof.
  intros Hx Hy. unfold read_line.
  change (x ++ " " ++ y ++ " " ++ rest)%string
    with (x ++ String " " (y ++ String " " rest))%string.
  change (x ++ " " ++ y)%string with (x ++ String " " y)%string.
  rewrite !(split_at_separator _ x) by exact Hx.
  rewrite (split_at_separator _ y) by exact Hy.
  rewrite (split_no_separator _ y Hy).
  destruct (Str.split " " rest) eqn:E; [now apply split_not_nil in E |].
  split; reflexivity.
Qed.

Example sample_disk_loads :
  load_coords_for_image SampleDisk.disk "a.jpg" = Returned [(1, 2); (3, 4)]
  /\ load_coords_for_image SampleDisk.disk "c.jpg" = Returned []
  /\ load_data_from SampleDisk.disk ["a.jpg"; "c.jpg"]%string
     = Returned ([], [])
  /\ load_data_from SampleDisk.disk ["c.jpg"; "b.jpg"]%string
     = Raised "ValueError"%string.
Proof. repeat split. Qed.

Lemma coordinates_come_from_txt_witness :
  load_coords_for_image SampleDisk.disk ("a" ++ ".jpg")
  = for_each (read_line SampleDisk.disk)
      (lines_of SampleDisk.disk ("a" ++ ".txt")).
Proof.
  destruct (coordinates_come_from_txt SampleDisk.disk "a" ".jpg")
    as [_ [H _]].
  - reflexivity.
  - apply H. reflexivity.
Defined.

Lemma line_without_space_raises_witness :
  load_coords_for_image SampleDisk.disk "b.jpg"
  = Raised "ValueError"%string.
Proof.
  apply (line_without_space_raises SampleDisk.disk "b.jpg"
           SampleDisk.newline).
  - reflexivity.
  - right. left. reflexivity.
  - reflexivity.
Defined.

Lemma only_two_fields_are_read_witness :
  read_line SampleDisk.disk ("3" ++ " " ++ "4" ++ " " ++ "5")
  = read_line SampleDisk.disk ("3" ++ " " ++ "4").
Proof.
  destruct (only_two_fields_are_read SampleDisk.disk "3" "4" "5") as [H _].
  - reflexivity.
  - reflexivity.
  - exact H.
Defined.

Lemma load_data_cons (im : image) (coords : list point)
  (entries : list (image * list point)) :
  load_data ((im, coords) :: entries)
  = if (length coords <? 5)%nat then load_data entries
    else ((fun r c k => im r c k / 255) :: fst (load_data entries),
          coords :: snd (load_data entries)).
Proof.
  unfold load_data. cbn [filter snd fst].
  destruct (length coords <? 5)%nat; reflexivity.
Qed.

Lemma load_loop_entries (disk : Disk) (jpg_paths : list string)
  (all_images : list image) (all_coords : list (list point)) :
  load_loop disk jpg_paths all_images all_coords
  = (cs <- for_each (load_coords_for_image disk) jpg_paths ;;
     Returned
       (all_images
          ++ fst (load_data (combine (map (imread disk) jpg_paths) cs)),
        all_coords
          ++ snd (load_data (combine (map (imread disk) jpg_paths) cs)))).
Proof.
  revert all_images all_coords.
  induction jpg_paths as [| p rest IH]; intros imgs0 cs0.
  - cbn. now rewrite !app_nil_r.
  - cbn [load_loop for_each map].
    destruct (load_coords_for_image disk p) as [c | e]; cbn [Py.bind];
      [| reflexivity].
    rewrite !IH.
    destruct (for_each (load_coords_for_image disk) rest) as [cs | e];
      cbn [Py.bind combine].
    + rewrite load_data_cons.
      destruct (length c <? 5)%nat; [reflexivity |].
      cbn [fst snd]. now rewrite <- !app_assoc.
    + now destruct (length c <? 5)%nat.
Qed.

(** X18.  Where every coordinate file that exists can be opened and
    decoded and every jpg is read as an image, [load_data] first reads the
    coordinate file of every path, in order, and then keeps the photos
    with at least five coordinates: its result is that of the filter on
    the images and the coordinates read; and an exception in any
    coordinate file, also one of a photo that would have been skipped,
    stops the whole load. *)
Theorem load_data_reads_then_filters (disk : Disk)
  (jpg_paths : list string) :
  load_data_from disk jpg_paths
  = (cs <- for_each (load_coords_for_image disk) jpg_paths ;;
     Returned (load_data (combine (map (imread disk) jpg_paths) cs))).
Proof.
  unfold load_data_from. rewrite load_loop_entries.
  destruct (for_each (load_coords_for_image disk) jpg_paths) as [cs | e];
    cbn [Py.bind app]; [| reflexivity].
  now destruct (load_data _).
Qed.
